(** * A shallow embedding of the minimal LevelDB reader

    Source: [src/chromium_profile_cli/leveldb.py].

    Byte strings are [list byte]; Python integers are [Z] (unbounded, so no
    wrap-around is ever written out); a stream that is only read forward
    ([io.BytesIO] handed to a decoder) is the list of bytes not yet read;
    exceptions are the [Raise] branch of [result]; a generator is the list
    of values it yields, paired with the exception that ends it, if any. *)

From Stdlib Require Import String Ascii.
From Stdlib Require Import Strings.Byte.
From Stdlib Require Import ZArith List Lia Bool.
From Stdlib Require Import Sorted Permutation.
Import ListNotations.
Open Scope Z_scope.

(** ** Bytes, Python slices and exceptions *)

Definition bytes := list byte.

Definition b2z (b : byte) : Z := Z.of_N (Byte.to_N b).

Definition len {A} (l : list A) : Z := Z.of_nat (length l).

(** The exceptions the module can raise.  [ValueError] carries the message
    of the [raise] statement; the others come from the interpreter
    ([bytes] indexing, [struct.unpack], [seek]).  [Exhausted] is not a
    Python exception: it marks a loop model that ran out of fuel, and the
    fuel lemmas below show that no loop is started with too little. *)
Inductive exn : Type :=
| ValueError (msg : string)
| IndexError
| StructError
| OSError
| TypeError
| Exhausted.

Inductive result (A : Type) : Type :=
| Ok (a : A)
| Raise (e : exn).
Arguments Ok {A} a.
Arguments Raise {A} e.

Definition bind {A B} (r : result A) (k : A -> result B) : result B :=
  match r with
  | Ok a => k a
  | Raise e => Raise e
  end.

Notation "'do' x <- r ; k" := (bind r (fun x => k))
  (at level 10, x pattern, r at level 100, k at level 200).

(** Normalisation of one slice bound against a sequence of length [n]
    (negative bounds count from the end, everything is clamped). *)
Definition py_bound (n i : Z) : Z :=
  if i <? 0 then Z.max 0 (i + n) else Z.min i n.

(** [l[start:stop]] *)
Definition py_slice {A} (l : list A) (start stop : Z) : list A :=
  let a := py_bound (len l) start in
  let b := py_bound (len l) stop in
  firstn (Z.to_nat (b - a)) (skipn (Z.to_nat a) l).

(** [l[start:]] *)
Definition py_slice_from {A} (l : list A) (start : Z) : list A :=
  skipn (Z.to_nat (py_bound (len l) start)) l.

(** [l[:stop]], where [stop] may be [None] *)
Definition py_slice_to {A} (l : list A) (stop : option Z) : list A :=
  match stop with
  | None => l
  | Some s => firstn (Z.to_nat (py_bound (len l) s)) l
  end.

(** [stream.read(n)] for [n >= 0] on a forward-only stream: the bytes read
    and the bytes left. *)
Definition read (n : Z) (s : bytes) : bytes * bytes :=
  (firstn (Z.to_nat n) s, skipn (Z.to_nat n) s).

(** [stream.read(n)] where [n] may be [None] (read to the end). *)
Definition read_opt (n : option Z) (s : bytes) : bytes * bytes :=
  match n with
  | None => (s, [])
  | Some k => read k s
  end.

(** Little-endian value of a byte string. *)
Fixpoint uint_le (bs : bytes) : Z :=
  match bs with
  | [] => 0
  | b :: bs' => b2z b + 256 * uint_le bs'
  end.

(** [struct.unpack] of one unsigned little-endian field of [n] bytes. *)
Definition unpack_le (n : nat) (bs : bytes) : result Z :=
  if Nat.eqb (length bs) n then Ok (uint_le bs) else Raise StructError.

(** [struct.unpack("<i", bs)[0]] *)
Definition unpack_i32 (bs : bytes) : result Z :=
  do v <- unpack_le 4 bs;
  Ok (if v <? 2147483648 then v else v - 4294967296).

(** ** Varint codec *)

(** The [for i in range(limit)] loop of [_read_le_varint]: [n] iterations
    are left, [i] is the loop index, [acc] is [result]. *)
Fixpoint varint_loop (n : nat) (i : Z) (acc : Z) (s : bytes) : option Z * bytes :=
  match n with
  | O => (Some acc, s)
  | S n' =>
      match s with
      | [] => (None, s)
      | b :: s' =>
          let acc' := Z.lor acc (Z.shiftl (Z.land (b2z b) 127) (i * 7)) in
          if Z.land (b2z b) 128 =? 0 then (Some acc', s')
          else varint_loop n' (i + 1) acc' s'
      end
  end.

Definition read_varint (limit : nat) (s : bytes) : option Z * bytes :=
  varint_loop limit 0 0 s.

Definition _read_le_varint (is_google_32bit : bool) (s : bytes) : option Z * bytes :=
  read_varint (if is_google_32bit then 5%nat else 10%nat) s.

(** ** Snappy decompression *)

Definition _SNAPPY_LITERAL : Z := 0.
Definition _SNAPPY_COPY_1BYTE : Z := 1.
Definition _SNAPPY_COPY_2BYTE : Z := 2.
Definition _SNAPPY_COPY_4BYTE : Z := 3.

(** [b * n] on byte strings. *)
Definition bytes_mul {A} (b : list A) (n : Z) : list A :=
  concat (repeat b (Z.to_nat n)).

(** The [length] of a literal and the stream after its extra length
    bytes. *)
Definition literal_length (tag_byte : Z) (data : bytes) : result (Z * bytes) :=
  let size_marker := Z.shiftr (Z.land tag_byte 252) 2 in
  if size_marker <? 60 then Ok (1 + size_marker, data)
  else if size_marker =? 60 then
    match read 1 data with
    | ([], _) => Raise IndexError
    | (b :: _, data') => Ok (1 + b2z b, data')
    end
  else if size_marker =? 61 then
    let '(h, data') := read 2 data in
    do v <- unpack_le 2 h; Ok (1 + v, data')
  else if size_marker =? 62 then
    let '(h, data') := read 3 data in
    do v <- unpack_le 4 (h ++ [x00]); Ok (1 + v, data')
  else
    let '(h, data') := read 4 data in
    do v <- unpack_le 4 h; Ok (1 + v, data').

(** [(length, offset)] of a copy element and the stream after its offset
    bytes. *)
Definition copy_header (tag tag_byte : Z) (data : bytes) : result (Z * Z * bytes) :=
  if tag =? _SNAPPY_COPY_1BYTE then
    let length := Z.shiftr (Z.land tag_byte 28) 2 + 4 in
    match read 1 data with
    | ([], _) => Raise IndexError
    | (b :: _, data') =>
        Ok (length, Z.lor (Z.shiftl (Z.land tag_byte 224) 3) (b2z b), data')
    end
  else if tag =? _SNAPPY_COPY_2BYTE then
    let length := 1 + Z.shiftr (Z.land tag_byte 252) 2 in
    let '(h, data') := read 2 data in
    do offset <- unpack_le 2 h; Ok (length, offset, data')
  else
    let length := 1 + Z.shiftr (Z.land tag_byte 252) 2 in
    let '(h, data') := read 4 data in
    do offset <- unpack_le 4 h; Ok (length, offset, data').

(** The bytes a copy element writes: [buf] at [out.write(buf)]. *)
Definition copy_bytes (out : bytes) (offset length : Z) : bytes :=
  let src_pos := len out - offset in
  let buf := py_slice out src_pos (src_pos + length) in
  if offset <=? length then py_slice_to (bytes_mul buf length) (Some length)
  else buf.

(** The [while True] loop.  [out] is the content of the output buffer,
    whose write position is always its end.  Every iteration reads the tag
    byte, so [length data] iterations of fuel are enough. *)
Fixpoint snappy_loop (fuel : nat) (data out : bytes) : result bytes :=
  match data with
  | [] => Ok out
  | raw :: data1 =>
      match fuel with
      | O => Raise Exhausted
      | S fuel' =>
          let tag_byte := b2z raw in
          let tag := Z.land tag_byte 3 in
          if tag =? _SNAPPY_LITERAL then
            do (length, data2) <- literal_length tag_byte data1;
            let '(chunk, data3) := read length data2 in
            if len chunk <? length
            then Raise (ValueError "Truncated snappy literal")
            else snappy_loop fuel' data3 (out ++ chunk)
          else
            do (length, offset, data2) <- copy_header tag tag_byte data1;
            if offset =? 0
            then Raise (ValueError "Snappy backreference offset cannot be 0")
            else snappy_loop fuel' data2 (out ++ copy_bytes out offset length)
      end
  end.

Definition _snappy_decompress (data : bytes) : result bytes :=
  let '(uncompressed_length, data1) := _read_le_varint false data in
  do result <- snappy_loop (length data1) data1 [];
  match uncompressed_length with
  | Some n =>
      if n =? len result then Ok result
      else Raise (ValueError "Snappy decompression length mismatch")
  | None => Raise (ValueError "Snappy decompression length mismatch")
  end.

(** ** LevelDB types *)

Inductive KeyState : Type := Deleted | Live | Unknown.

(** The class [Record] of the source ([Record] is a keyword here). *)
Record Record_ : Type := mkRecord {
  key : bytes;
  value : bytes;
  seq : Z;
  state : KeyState;
  _from_ldb : bool
}.

Definition user_key (r : Record_) : bytes :=
  if _from_ldb r && (8 <=? len (key r)) then py_slice_to (key r) (Some (-8))
  else key r.

(** What a generator produces: the values yielded, and the exception that
    ended the iteration, if one did. *)
Definition trace (A : Type) : Type := (list A * option exn)%type.

Definition yields {A} (xs : list A) (t : trace A) : trace A :=
  (xs ++ fst t, snd t).

(** ** Table files *)

Definition _BLOCK_TRAILER_SIZE : Z := 5.
Definition _TABLE_FOOTER_SIZE : Z := 48.
Definition _TABLE_MAGIC : Z := 0xDB4775248B80FB57.

Definition _read_block_handle (s : bytes) : (option Z * option Z) * bytes :=
  let '(offset, s1) := _read_le_varint false s in
  let '(length, s2) := _read_le_varint false s1 in
  ((offset, length), s2).

(** The [while buf.tell() < restart_array_offset] loop of
    [_iter_block_entries]: [buf] is what is left to read and [pos] is
    [buf.tell()].  A varint that is [None] is used as a slice bound and as
    a read size as it is: [key[:None]] is the whole key, [buf.read(None)]
    reads to the end. *)
Fixpoint entries_loop (fuel : nat) (buf : bytes) (pos restart_array_offset : Z)
    (key : bytes) : list (bytes * bytes) :=
  match fuel with
  | O => []
  | S fuel' =>
      if pos <? restart_array_offset then
        let '(shared_len, buf1) := _read_le_varint true buf in
        let '(non_shared_len, buf2) := _read_le_varint true buf1 in
        let '(value_len, buf3) := _read_le_varint true buf2 in
        let '(suffix, buf4) := read_opt non_shared_len buf3 in
        let key' := py_slice_to key shared_len ++ suffix in
        let '(value, buf5) := read_opt value_len buf4 in
        (key', value)
          :: entries_loop fuel' buf5 (pos + (len buf - len buf5))
               restart_array_offset key'
      else []
  end.

(** [_iter_block_entries]: the setup can raise, before anything is
    yielded; the loop cannot. *)
Definition _iter_block_entries (raw : bytes) : result (list (bytes * bytes)) :=
  do restart_count <- unpack_le 4 (py_slice_from raw (-4));
  let restart_array_offset := len raw - (restart_count + 1) * 4 in
  do first_entry_offset <-
    unpack_i32 (py_slice raw restart_array_offset (restart_array_offset + 4));
  if first_entry_offset <? 0 then Raise (ValueError "negative seek value")
  else Ok (entries_loop (length raw) (skipn (Z.to_nat first_entry_offset) raw)
             first_entry_offset restart_array_offset []).

(** [read_block] inside [_iter_table_file]; [f] is the content of the
    file.  A seek past the end is allowed and the reads after it are
    empty; offsets and sizes too large for the platform are not told
    apart from that. *)
Definition read_block (f : bytes) (offset length : option Z) : result (bytes * bool) :=
  match offset with
  | None => Raise TypeError
  | Some off =>
      let '(block_data, rest) := read_opt length (skipn (Z.to_nat off) f) in
      let '(trailer, _) := read _BLOCK_TRAILER_SIZE rest in
      match trailer with
      | [] => Raise IndexError
      | t :: _ =>
          if negb (b2z t =? 0)
          then do d <- _snappy_decompress block_data; Ok (d, true)
          else Ok (block_data, false)
      end
  end.

(** Lines 205-209: the record made from one data-block entry. *)
Definition table_record (key value : bytes) : result Record_ :=
  do q <- unpack_le 8 (py_slice_from key (-8));
  let seq := Z.shiftr q 8 in
  let state :=
    if (8 <? len key) && (b2z (nth (length key - 8) key x00) =? 0)
    then Deleted else Live in
  let state := if len key <=? 8 then Unknown else state in
  Ok (mkRecord key value seq state true).

(** The [for key, value in _iter_block_entries(block_data)] loop. *)
Fixpoint block_records (entries : list (bytes * bytes)) : trace Record_ :=
  match entries with
  | [] => ([], None)
  | (k, v) :: rest =>
      match table_record k v with
      | Raise e => ([], Some e)
      | Ok r => yields [r] (block_records rest)
      end
  end.

(** The [for _index_key, handle_bytes in index_entries] loop. *)
Fixpoint table_blocks (f : bytes) (index_entries : list (bytes * bytes)) : trace Record_ :=
  match index_entries with
  | [] => ([], None)
  | (_, handle_bytes) :: rest =>
      let '((offset, length), _) := _read_block_handle handle_bytes in
      match read_block f offset length with
      | Raise e => ([], Some e)
      | Ok (block_data, _) =>
          match _iter_block_entries block_data with
          | Raise e => ([], Some e)
          | Ok entries =>
              match block_records entries with
              | (rs, Some e) => (rs, Some e)
              | (rs, None) => yields rs (table_blocks f rest)
              end
          end
      end
  end.

Definition _iter_table_file (f : bytes) : trace Record_ :=
  if len f <? _TABLE_FOOTER_SIZE then ([], Some OSError)
  else
    let footer := skipn (Z.to_nat (len f - _TABLE_FOOTER_SIZE)) f in
    let '(_meta_handle, footer1) := _read_block_handle footer in
    let '((index_offset, index_length), _) := _read_block_handle footer1 in
    match unpack_le 8 (fst (read 8 (skipn (Z.to_nat (len f - 8)) f))) with
    | Raise e => ([], Some e)
    | Ok magic =>
        if negb (magic =? _TABLE_MAGIC) then ([], Some (ValueError "Invalid magic"))
        else
          match read_block f index_offset index_length with
          | Raise e => ([], Some e)
          | Ok (index_data, _) =>
              match _iter_block_entries index_data with
              | Raise e => ([], Some e)
              | Ok index_entries => table_blocks f index_entries
              end
          end
    end.

(** ** Log files *)

Definition _LOG_BLOCK_SIZE : Z := 32768.

Definition _LOG_FULL : Z := 1.
Definition _LOG_FIRST : Z := 2.
Definition _LOG_MIDDLE : Z := 3.
Definition _LOG_LAST : Z := 4.

(** The reassembly variables [in_record] and [block]. *)
Definition log_state : Type := (bool * bytes)%type.

(** One more batch yielded in front of what a loop yields. *)
Definition emit (b : bytes) (r : list bytes * log_state) : list bytes * log_state :=
  (b :: fst r, snd r).

(** The [while buf.tell() < _LOG_BLOCK_SIZE - 6] loop over one physical
    block: [buf] is what is left of the chunk, [pos] is [buf.tell()].  It
    gives the batches yielded and the reassembly variables at its end. *)
Fixpoint frag_loop (fuel : nat) (buf : bytes) (pos : Z) (in_record : bool)
    (block : bytes) : list bytes * log_state :=
  match fuel with
  | O => ([], (in_record, block))
  | S fuel' =>
      if pos <? _LOG_BLOCK_SIZE - 6 then
        let '(header, buf1) := read 7 buf in
        if len header <? 7 then ([], (in_record, block))
        else
          let length := uint_le (firstn 2 (skipn 4 header)) in
          let block_type := uint_le (skipn 6 header) in
          let '(payload, buf2) := read length buf1 in
          let pos' := pos + 7 + len payload in
          if block_type =? _LOG_FULL then
            emit payload (frag_loop fuel' buf2 pos' false block)
          else if block_type =? _LOG_FIRST then
            frag_loop fuel' buf2 pos' true payload
          else if block_type =? _LOG_MIDDLE then
            if in_record then frag_loop fuel' buf2 pos' in_record (block ++ payload)
            else frag_loop fuel' buf2 pos' in_record block
          else if block_type =? _LOG_LAST then
            if in_record
            then emit (block ++ payload) (frag_loop fuel' buf2 pos' false (block ++ payload))
            else frag_loop fuel' buf2 pos' in_record block
          else frag_loop fuel' buf2 pos' in_record block
      else ([], (in_record, block))
  end.

(** The [while chunk := f.read(_LOG_BLOCK_SIZE)] loop; [f] is what is left
    of the file. *)
Fixpoint chunk_loop (fuel : nat) (f : bytes) (in_record : bool) (block : bytes)
    : list bytes :=
  match fuel with
  | O => []
  | S fuel' =>
      let '(chunk, f') := read _LOG_BLOCK_SIZE f in
      match chunk with
      | [] => []
      | _ :: _ =>
          let '(batches, (in_record', block')) :=
            frag_loop (length chunk) chunk 0 in_record block in
          batches ++ chunk_loop fuel' f' in_record' block'
      end
  end.

Definition _iter_log_batches (f : bytes) : list bytes :=
  chunk_loop (length f) f false [].

(** [KeyState(raw_state[0]) if raw_state[0] <= 1 else KeyState.Unknown] *)
Definition key_state_of (b : byte) : KeyState :=
  if b2z b <=? 1 then (if b2z b =? 0 then Deleted else Live) else Unknown.

Definition is_deleted (s : KeyState) : bool :=
  match s with
  | Deleted => true
  | _ => false
  end.

(** The [for i in range(count)] loop over one batch; [buf] is what is
    left of the batch after its header.  Every iteration reads the state
    byte, so [length buf] iterations of fuel are enough. *)
Fixpoint batch_loop (fuel : nat) (buf : bytes) (seq count i : Z) : list Record_ :=
  match fuel with
  | O => []
  | S fuel' =>
      if i <? count then
        match buf with
        | [] => []
        | raw_state :: buf1 =>
            let state := key_state_of raw_state in
            match _read_le_varint true buf1 with
            | (None, _) => []
            | (Some key_len, buf2) =>
                let '(key, buf3) := read key_len buf2 in
                if negb (is_deleted state) then
                  match _read_le_varint true buf3 with
                  | (None, _) => []
                  | (Some val_len, buf4) =>
                      let '(value, buf5) := read val_len buf4 in
                      mkRecord key value (seq + i) state false
                        :: batch_loop fuel' buf5 seq count (i + 1)
                  end
                else
                  mkRecord key [] (seq + i) state false
                    :: batch_loop fuel' buf3 seq count (i + 1)
            end
        end
      else []
  end.

(** The 12-byte batch header: [(seq, count)], and the rest of the batch. *)
Definition batch_header (batch : bytes) : option (Z * Z * bytes) :=
  let '(header, buf) := read 12 batch in
  if len header <? 12 then None
  else Some (uint_le (firstn 8 header), uint_le (skipn 8 header), buf).

(** The body of the [for batch in ...] loop of [_iter_log_file]. *)
Definition decode_batch (batch : bytes) : list Record_ :=
  match batch_header batch with
  | None => []
  | Some (seq, count, buf) => batch_loop (length buf) buf seq count 0
  end.

Definition _iter_log_file (f : bytes) : list Record_ :=
  flat_map decode_batch (_iter_log_batches f).

(** ** Public API: the directory scanner *)

(** An entry of the directory: its name, whether [is_file()] holds, and
    its content when it is read. *)
Record DirEntry : Type := mkEntry {
  name : string;
  is_file : bool;
  content : bytes
}.

Definition is_digit (c : ascii) : bool :=
  let n := Z.of_nat (nat_of_ascii c) in (48 <=? n) && (n <=? 57).

Fixpoint all_digits (s : string) : bool :=
  match s with
  | EmptyString => true
  | String c s' => is_digit c && all_digits s'
  end.

(** [_DATA_FILE_RE.match(name)] as a truth value: [re.match] anchors the
    pattern [[0-9]{6}\.(ldb|log|sst)] at the start of the name only. *)
Definition _DATA_FILE_RE_match (name : string) : bool :=
  let stem := substring 0 6 name in
  let ext := substring 6 4 name in
  Nat.eqb (String.length stem) 6 && all_digits stem
  && (String.eqb ext ".ldb" || String.eqb ext ".log" || String.eqb ext ".sst").

(** [re.fullmatch] of the same pattern: what the anchored pattern
    [^[0-9]{6}\.(ldb|log|sst)$] accepts (on names without a newline). *)
Definition data_file_fullmatch (name : string) : bool :=
  _DATA_FILE_RE_match name && Nat.eqb (String.length name) 10.

(** [name.rfind('.')]: [i] is the index of the first character of [s]. *)
Fixpoint rfind_dot (s : string) (i : nat) : option nat :=
  match s with
  | EmptyString => None
  | String c s' =>
      match rfind_dot s' (S i) with
      | Some j => Some j
      | None => if Ascii.eqb c "." then Some i else None
      end
  end.

(** [PurePath.suffix] and [PurePath.stem] of a file name. *)
Definition suffix (name : string) : string :=
  match rfind_dot name 0 with
  | Some i =>
      if Nat.ltb 0 i && Nat.ltb i (String.length name - 1)
      then substring i (String.length name - i) name
      else EmptyString
  | None => EmptyString
  end.

Definition stem (name : string) : string :=
  match rfind_dot name 0 with
  | Some i =>
      if Nat.ltb 0 i && Nat.ltb i (String.length name - 1)
      then substring 0 i name
      else name
  | None => name
  end.

Definition lower_char (c : ascii) : ascii :=
  let n := nat_of_ascii c in
  if Nat.leb 65 n && Nat.leb n 90 then ascii_of_nat (n + 32) else c.

Fixpoint lower (s : string) : string :=
  match s with
  | EmptyString => EmptyString
  | String c s' => String (lower_char c) (lower s')
  end.

Definition hex_digit (c : ascii) : option Z :=
  let n := Z.of_nat (nat_of_ascii c) in
  if (48 <=? n) && (n <=? 57) then Some (n - 48)
  else if (97 <=? n) && (n <=? 102) then Some (n - 87)
  else if (65 <=? n) && (n <=? 70) then Some (n - 55)
  else None.

Fixpoint hex_value (acc : Z) (s : string) : option Z :=
  match s with
  | EmptyString => Some acc
  | String c s' =>
      match hex_digit c with
      | Some d => hex_value (16 * acc + d) s'
      | None => None
      end
  end.

(** [int(s, 16)] on a run of hexadecimal digits; every other string
    raises.  (The sign, the [0x] prefix, the underscores and the blanks
    that [int] also accepts cannot occur here: a stem that reaches this
    call starts with six digits and is either those six digits or
    contains a dot.) *)
Definition int_16 (s : string) : result Z :=
  match s with
  | EmptyString => Raise (ValueError "invalid literal for int() with base 16")
  | _ =>
      match hex_value 0 s with
      | Some v => Ok v
      | None => Raise (ValueError "invalid literal for int() with base 16")
      end
  end.

(** The first loop of [iter_leveldb_records]: the list [files]. *)
Fixpoint collect_files (entries : list DirEntry) : result (list (Z * DirEntry * string)) :=
  match entries with
  | [] => Ok []
  | f :: rest =>
      if is_file f && _DATA_FILE_RE_match (name f) then
        do file_no <- int_16 (stem (name f));
        do files <- collect_files rest;
        Ok ((file_no, f, lower (suffix (name f))) :: files)
      else collect_files rest
  end.

(** [files.sort(key=lambda x: x[0])]: a stable sort on the file number. *)
Fixpoint insert_file (x : Z * DirEntry * string) (l : list (Z * DirEntry * string))
    : list (Z * DirEntry * string) :=
  match l with
  | [] => [x]
  | y :: l' =>
      if fst (fst y) <=? fst (fst x) then y :: insert_file x l' else x :: l
  end.

Definition sort_files (l : list (Z * DirEntry * string)) : list (Z * DirEntry * string) :=
  fold_left (fun acc x => insert_file x acc) l [].

(** The second loop: the record streams of the files, one after the
    other, up to the first exception. *)
Fixpoint scan_files (files : list (Z * DirEntry * string)) : trace Record_ :=
  match files with
  | [] => ([], None)
  | (_, path, ext) :: rest =>
      let t :=
        if String.eqb ext ".log" then (_iter_log_file (content path), None)
        else if String.eqb ext ".ldb" || String.eqb ext ".sst"
        then _iter_table_file (content path)
        else ([], None) in
      match t with
      | (rs, Some e) => (rs, Some e)
      | (rs, None) => yields rs (scan_files rest)
      end
  end.

(** [iter_leveldb_records]: [None] is a path that is not a directory,
    [Some entries] a directory with [entries] in [iterdir()] order. *)
Definition iter_leveldb_records (db_dir : option (list DirEntry)) : trace Record_ :=
  match db_dir with
  | None => ([], Some (ValueError "Not a directory"))
  | Some entries =>
      match collect_files entries with
      | Raise e => ([], Some e)
      | Ok files => scan_files (sort_files files)
      end
  end.

(** ** Predicates used in the statements *)

(** A varint byte with its high bit set: more bytes follow. *)
Definition continues (b : byte) : Prop := Z.land (b2z b) 128 <> 0.

(** *** The elements of a Snappy stream, as the format describes them

    These follow the description of the elements, not the code: the
    number of header bytes after a tag byte [T], the length and the offset
    an element declares, and the run of a stream of elements with the
    ways it can fail. *)

Definition header_bytes (T : Z) : Z :=
  if Z.land T 3 =? 0 then
    (if Z.shiftr T 2 <? 60 then 0 else Z.shiftr T 2 - 59)
  else if Z.land T 3 =? 1 then 1
  else if Z.land T 3 =? 2 then 2
  else 4.

Definition element_length (T : Z) (hdr : bytes) : Z :=
  if Z.land T 3 =? 0 then
    (if Z.shiftr T 2 <? 60 then Z.shiftr T 2 + 1 else uint_le hdr + 1)
  else if Z.land T 3 =? 1 then Z.land (Z.shiftr T 2) 7 + 4
  else Z.shiftr T 2 + 1.

Definition element_offset (T : Z) (hdr : bytes) : Z :=
  if Z.land T 3 =? 1 then Z.lor (Z.shiftl (Z.land T 224) 3) (uint_le hdr)
  else uint_le hdr.

(** The exception of a header that is cut short: indexing an empty read
    when the header is one byte, [struct.unpack] when it is longer. *)
Definition cut_header_exn (T : Z) : exn :=
  if header_bytes T =? 1 then IndexError else StructError.

Inductive snappy_elements : bytes -> bytes -> result bytes -> Prop :=
| elements_end (out : bytes) :
    snappy_elements [] out (Ok out)
| elements_cut_header (t : byte) (rest out : bytes) :
    len rest < header_bytes (b2z t) ->
    snappy_elements (t :: rest) out (Raise (cut_header_exn (b2z t)))
| elements_cut_literal (t : byte) (rest out : bytes) :
    header_bytes (b2z t) <= len rest ->
    Z.land (b2z t) 3 = 0 ->
    len (skipn (Z.to_nat (header_bytes (b2z t))) rest)
      < element_length (b2z t) (firstn (Z.to_nat (header_bytes (b2z t))) rest) ->
    snappy_elements (t :: rest) out (Raise (ValueError "Truncated snappy literal"))
| elements_zero_offset (t : byte) (rest out : bytes) :
    header_bytes (b2z t) <= len rest ->
    Z.land (b2z t) 3 <> 0 ->
    element_offset (b2z t) (firstn (Z.to_nat (header_bytes (b2z t))) rest) = 0 ->
    snappy_elements (t :: rest) out
      (Raise (ValueError "Snappy backreference offset cannot be 0"))
| elements_literal (t : byte) (rest out : bytes) (r : result bytes) :
    header_bytes (b2z t) <= len rest ->
    Z.land (b2z t) 3 = 0 ->
    let hdr := firstn (Z.to_nat (header_bytes (b2z t))) rest in
    let body := skipn (Z.to_nat (header_bytes (b2z t))) rest in
    let n := Z.to_nat (element_length (b2z t) hdr) in
    element_length (b2z t) hdr <= len body ->
    snappy_elements (skipn n body) (out ++ firstn n body) r ->
    snappy_elements (t :: rest) out r
| elements_copy (t : byte) (rest out : bytes) (r : result bytes) :
    header_bytes (b2z t) <= len rest ->
    Z.land (b2z t) 3 <> 0 ->
    let hdr := firstn (Z.to_nat (header_bytes (b2z t))) rest in
    let body := skipn (Z.to_nat (header_bytes (b2z t))) rest in
    element_offset (b2z t) hdr <> 0 ->
    snappy_elements body
      (out ++ copy_bytes out (element_offset (b2z t) hdr) (element_length (b2z t) hdr)) r ->
    snappy_elements (t :: rest) out r.

(** The whole frame: the length prefix, the elements, the final check. *)
Inductive snappy_frame (data : bytes) : result bytes -> Prop :=
| frame_element_failure (n : option Z) (body : bytes) (e : exn) :
    _read_le_varint false data = (n, body) ->
    snappy_elements body [] (Raise e) ->
    snappy_frame data (Raise e)
| frame_length_mismatch (n : option Z) (body out : bytes) :
    _read_le_varint false data = (n, body) ->
    snappy_elements body [] (Ok out) ->
    n <> Some (len out) ->
    snappy_frame data (Raise (ValueError "Snappy decompression length mismatch"))
| frame_output (body out : bytes) :
    _read_le_varint false data = (Some (len out), body) ->
    snappy_elements body [] (Ok out) ->
    snappy_frame data (Ok out).

(** A record that lines 205-209 make from some data-block entry. *)
Definition made_from_entry (r : Record_) : Prop :=
  exists k v, table_record k v = Ok r.

(** The error names of the specification, for the exceptions the Snappy
    decompressor raises itself. *)
Inductive snappy_error : Type := MalformedSnappy | LengthMismatch.

Definition snappy_error_of (e : exn) : option snappy_error :=
  match e with
  | ValueError msg =>
      if String.eqb msg "Truncated snappy literal"
         || String.eqb msg "Snappy backreference offset cannot be 0"
      then Some MalformedSnappy
      else if String.eqb msg "Snappy decompression length mismatch"
      then Some LengthMismatch
      else None
  | _ => None
  end.

(** ** Sample inputs *)


(** A table file of 93 bytes with one raw data block of one entry
    whose key is [k] followed by the tag 0 and the sequence 7, and whose
    value is [v]. *)
Definition table_deleted_with_value : bytes :=
  (* data block, at offset 0, 21 bytes:
     entry header (shared 0, non-shared 9, value length 1), key, value *)
  [x00; x09; x01] ++ [x6b; x00; x07; x00; x00; x00; x00; x00; x00] ++ [x76]
  (* restart array (one restart, at 0) and restart count 1 *)
  ++ [x00; x00; x00; x00; x01; x00; x00; x00]
  (* block trailer: compression type 0 and 4 CRC bytes *)
  ++ [x00; x00; x00; x00; x00]
  (* index block, at offset 26, 14 bytes: one entry with key [k]
     whose value is the handle (offset 0, length 21) of the data block *)
  ++ [x00; x01; x02] ++ [x6b] ++ [x00; x15]
  ++ [x00; x00; x00; x00; x01; x00; x00; x00]
  ++ [x00; x00; x00; x00; x00]
  (* footer, 48 bytes: metaindex handle (0, 0), index handle (26, 14),
     padding, magic *)
  ++ [x00; x00; x1a; x0e] ++ repeat x00 36
  ++ [x57; xfb; x80; x8b; x24; x75; x47; xdb].

(** A table file of 87 bytes with one raw data block of one entry
    whose key is the 3 bytes [abc] and whose value is [v]. *)
Definition table_key_of_3 : bytes :=
  (* data block, at offset 0, 15 bytes:
     entry header (shared 0, non-shared 3, value length 1), key, value *)
  [x00; x03; x01] ++ [x61; x62; x63] ++ [x76]
  (* restart array (one restart, at 0) and restart count 1 *)
  ++ [x00; x00; x00; x00; x01; x00; x00; x00]
  (* block trailer: compression type 0 and 4 CRC bytes *)
  ++ [x00; x00; x00; x00; x00]
  (* index block, at offset 20, 14 bytes: one entry with key [k]
     whose value is the handle (offset 0, length 15) of the data block *)
  ++ [x00; x01; x02] ++ [x6b] ++ [x00; x0f]
  ++ [x00; x00; x00; x00; x01; x00; x00; x00]
  ++ [x00; x00; x00; x00; x00]
  (* footer, 48 bytes: metaindex handle (0, 0), index handle (20, 14),
     padding, magic *)
  ++ [x00; x00; x14; x0e] ++ repeat x00 36
  ++ [x57; xfb; x80; x8b; x24; x75; x47; xdb].

(** A table file of 95 bytes whose data block is stored as a Snappy
    frame: one entry whose key is [k] followed by the tag 1 and the
    sequence 9, and whose value is [v]. *)
Definition table_compressed : bytes :=
  (* Snappy frame, at offset 0, 23 bytes: declared length 21, and a
     literal of 21 bytes, which is the data block *)
  [x15; x50]
  ++ [x00; x09; x01] ++ [x6b; x01; x09; x00; x00; x00; x00; x00; x00] ++ [x76]
  ++ [x00; x00; x00; x00; x01; x00; x00; x00]
  (* block trailer: compression type 1 and 4 CRC bytes *)
  ++ [x01; x00; x00; x00; x00]
  (* index block, at offset 28, 14 bytes, raw *)
  ++ [x00; x01; x02] ++ [x6b] ++ [x00; x17]
  ++ [x00; x00; x00; x00; x01; x00; x00; x00]
  ++ [x00; x00; x00; x00; x00]
  (* footer: metaindex handle (0, 0), index handle (28, 14), padding,
     magic *)
  ++ [x00; x00; x1c; x0e] ++ repeat x00 36
  ++ [x57; xfb; x80; x8b; x24; x75; x47; xdb].

(** The fields of the 7-byte fragment header of a log block. *)
Definition fragment_length (header : bytes) : Z := uint_le (firstn 2 (skipn 4 header)).
Definition fragment_type (header : bytes) : Z := uint_le (skipn 6 header).

(** The reassembly table of the log reader: what a fragment of type
    [block_type] with payload [payload] does to the reassembly variables
    [(in_record, block)], and the batch it makes the reader yield, if
    any. *)
Definition fragment_action (block_type : Z) (payload : bytes) (st : log_state)
    : list bytes * log_state :=
  let '(in_record, block) := st in
  if block_type =? _LOG_FULL then ([payload], (false, block))
  else if block_type =? _LOG_FIRST then ([], (true, payload))
  else if block_type =? _LOG_MIDDLE then
    (if in_record then ([], (true, block ++ payload)) else ([], (false, block)))
  else if block_type =? _LOG_LAST then
    (if in_record then ([block ++ payload], (false, block ++ payload))
     else ([], (false, block)))
  else ([], (in_record, block)).

(** The log batch of one live record [foo -> bar] with base sequence 42. *)
Definition batch_foo_bar : bytes :=
  [ x2a; x00; x00; x00; x00; x00; x00; x00; x01; x00; x00; x00;
    x01; x03; x66; x6f; x6f; x03; x62; x61; x72 ].

(** The log batch of one deleted record [k] with base sequence 7. *)
Definition batch_deleted_k : bytes :=
  [ x07; x00; x00; x00; x00; x00; x00; x00; x01; x00; x00; x00;
    x00; x01; x6b ].

(** A log batch cut inside a value: base sequence 7, count 2, a live
    record with key [k] whose value is declared 5 bytes long, and only
    the 2 bytes [ab] of it. *)
Definition batch_cut_value : bytes :=
  [ x07; x00; x00; x00; x00; x00; x00; x00; x02; x00; x00; x00;
    x01; x01; x6b; x05; x61; x62 ].

(** A log batch cut inside a key: base sequence 7, count 1, a deleted
    record whose key is declared 5 bytes long, and only the 2 bytes [ab]
    of it. *)
Definition batch_cut_key : bytes :=
  [ x07; x00; x00; x00; x00; x00; x00; x00; x01; x00; x00; x00;
    x00; x05; x61; x62 ].

(** A log file of one [FULL] fragment that holds [batch]. *)
Definition log_of_batch (batch : bytes) (length_lo : byte) : bytes :=
  [x00; x00; x00; x00; length_lo; x00; x01] ++ batch.

(** Directory entries for the scanner: a log file with one record, a
    file whose name carries characters after the extension, and one whose
    extension is only a prefix of its suffix. *)
Definition entry_log_1 : DirEntry :=
  mkEntry "000001.log" true (log_of_batch batch_foo_bar x15).

Definition entry_log_old : DirEntry :=
  mkEntry "123456.log.old" true (log_of_batch batch_foo_bar x15).

Definition entry_ldbx : DirEntry :=
  mkEntry "123456.ldbx" true table_deleted_with_value.



(** The three suffixes that are dispatched to a reader. *)
Definition dispatched (ext : string) : Prop :=
  ext = ".log"%string \/ ext = ".ldb"%string \/ ext = ".sst"%string.

(** The log batch of one live record whose key [abcdefghij] is longer
    than 8 bytes, with the value [v] and the base sequence 1. *)
Definition batch_long_key : bytes :=
  [ x01; x00; x00; x00; x00; x00; x00; x00; x01; x00; x00; x00;
    x01; x0a; x61; x62; x63; x64; x65; x66; x67; x68; x69; x6a; x01; x76 ].

(** ** Well-formed inputs, for the statements about decoding

    These describe inputs, not the code: byte strings that the varint
    reader of the code reads as a given number, and entries, records and
    fragments laid out with them. *)

(** [enc] reads as [n]: in front of any stream, the varint reader (of
    the reads flagged as 32-bit) gives [n] and leaves that stream. *)
Definition varint_of (enc : bytes) (n : Z) : Prop :=
  forall rest, _read_le_varint true (enc ++ rest) = (Some n, rest).

(** An entry of a data block as it is stored: the three varints, with
    the number of shared bytes the first one reads as, the key bytes that
    are not shared, and the value. *)
Record StoredEntry : Type := mkStored {
  e_shared_enc : bytes;
  e_shared : Z;
  e_non_shared_enc : bytes;
  e_value_enc : bytes;
  e_suffix : bytes;
  e_value : bytes
}.

Definition stored_bytes (e : StoredEntry) : bytes :=
  e_shared_enc e ++ e_non_shared_enc e ++ e_value_enc e ++ e_suffix e ++ e_value e.

Definition stored_ok (e : StoredEntry) : Prop :=
  varint_of (e_shared_enc e) (e_shared e) /\
  varint_of (e_non_shared_enc e) (len (e_suffix e)) /\
  varint_of (e_value_enc e) (len (e_value e)).

(** The keys of a run of stored entries, each built on the key before
    it. *)
Fixpoint rebuild_keys (prev : bytes) (es : list StoredEntry) : list (bytes * bytes) :=
  match es with
  | [] => []
  | e :: es' =>
      let k := firstn (Z.to_nat (e_shared e)) prev ++ e_suffix e in
      (k, e_value e) :: rebuild_keys k es'
  end.

(** A record of a log batch as it is stored: the state byte, the key
    with the varint of its length, and, unless the state byte is 0, the
    value with the varint of its length. *)
Record StoredOp : Type := mkOp {
  o_state : byte;
  o_key_enc : bytes;
  o_key : bytes;
  o_value_enc : bytes;
  o_value : bytes
}.

Definition op_deleted (o : StoredOp) : bool := is_deleted (key_state_of (o_state o)).

Definition op_bytes (o : StoredOp) : bytes :=
  o_state o :: o_key_enc o ++ o_key o
    ++ (if op_deleted o then [] else o_value_enc o ++ o_value o).

Definition op_ok (o : StoredOp) : Prop :=
  varint_of (o_key_enc o) (len (o_key o)) /\
  (op_deleted o = false -> varint_of (o_value_enc o) (len (o_value o))).

Definition op_record (base i : Z) (o : StoredOp) : Record_ :=
  mkRecord (o_key o) (if op_deleted o then [] else o_value o) (base + i)
    (key_state_of (o_state o)) false.

Fixpoint op_records (base i : Z) (ops : list StoredOp) : list Record_ :=
  match ops with
  | [] => []
  | o :: ops' => op_record base i o :: op_records base (i + 1) ops'
  end.

(** A fragment of a log block as it is stored, header and payload, the
    header declaring the length of the payload. *)
Definition fragment_bytes (fr : bytes * bytes) : bytes := fst fr ++ snd fr.

Definition fragment_ok (fr : bytes * bytes) : Prop :=
  len (fst fr) = 7 /\ fragment_length (fst fr) = len (snd fr).

(** The reassembly table run over the fragments of a block. *)
Fixpoint run_fragments (frs : list (bytes * bytes)) (st : log_state)
    : list bytes * log_state :=
  match frs with
  | [] => ([], st)
  | fr :: frs' =>
      let '(out, st') := fragment_action (fragment_type (fst fr)) (snd fr) st in
      let '(out', st'') := run_fragments frs' st' in
      (out ++ out', st'')
  end.

(** Two stored entries: the key [apple] with the value [1], and then 3
    shared bytes and [ly], the key [apply], with the value [2]. *)
Definition stored_apple : StoredEntry :=
  mkStored [x00] 0 [x05] [x01] [x61; x70; x70; x6c; x65] [x31].

Definition stored_apply : StoredEntry :=
  mkStored [x03] 3 [x02] [x01] [x6c; x79] [x32].

(** Two stored records of a batch: the key [k] put with the value [v],
    and the key [d] deleted. *)
Definition op_put_k : StoredOp := mkOp x01 [x01] [x6b] [x01] [x76].

Definition op_delete_d : StoredOp := mkOp x00 [x01] [x64] [] [].

(** A physical block of a log file as it is stored: fragments, and the
    padding of fewer than 7 bytes that may follow them. *)
Definition block_bytes (b : list (bytes * bytes) * bytes) : bytes :=
  flat_map fragment_bytes (fst b) ++ snd b.

Definition block_ok (b : list (bytes * bytes) * bytes) : Prop :=
  Forall fragment_ok (fst b) /\ len (snd b) < 7 /\
  0 < len (block_bytes b) <= _LOG_BLOCK_SIZE.

(** Every block but the last fills its 32768 bytes. *)
Inductive full_but_last : list (list (bytes * bytes) * bytes) -> Prop :=
| full_none : full_but_last []
| full_last (b : list (bytes * bytes) * bytes) : full_but_last [b]
| full_more (b b' : list (bytes * bytes) * bytes)
    (bs : list (list (bytes * bytes) * bytes)) :
    len (block_bytes b) = _LOG_BLOCK_SIZE ->
    full_but_last (b' :: bs) ->
    full_but_last (b :: b' :: bs).

(** The reassembly table run over the blocks of a file, the reassembly
    variables going from each block to the next. *)
Fixpoint run_blocks (bs : list (list (bytes * bytes) * bytes)) (st : log_state)
    : list bytes :=
  match bs with
  | [] => []
  | b :: bs' =>
      let '(out, st') := run_fragments (fst b) st in
      out ++ run_blocks bs' st'
  end.

(** The file number of a collected file, and the filter of the first
    loop of the scanner. *)
Definition file_no (x : Z * DirEntry * string) : Z := fst (fst x).


(** A block of a table file as it is stored, with the type byte and the
    CRC bytes of its trailer; what it holds, decompressed when the type
    byte is not 0. *)
Record StoredBlock : Type := mkBlock {
  b_stored : bytes;
  b_type : byte;
  b_crc : bytes
}.

Definition stored_block_bytes (b : StoredBlock) : bytes :=
  b_stored b ++ b_type b :: b_crc b.

Definition block_content (b : StoredBlock) : result bytes :=
  if b2z (b_type b) =? 0 then Ok (b_stored b) else _snappy_decompress (b_stored b).

(** A data block of a table file, with the value of its index entry and
    the entries it decodes to. *)
Record TableBlock : Type := mkTableBlock {
  t_block : StoredBlock;
  t_handle : bytes;
  t_entries : list (bytes * bytes)
}.

(** The data blocks one after the other, as they lie in the file. *)
Definition data_region (ds : list TableBlock) : bytes :=
  flat_map (fun d => stored_block_bytes (t_block d)) ds.

(** The index value of each data block reads as the handle of that
    block: its offset, the blocks lying one after the other from
    [offset] on, and the length of its stored bytes. *)
Fixpoint handles_at (offset : Z) (ds : list TableBlock) : Prop :=
  match ds with
  | [] => True
  | d :: ds' =>
      fst (_read_block_handle (t_handle d))
        = (Some offset, Some (len (b_stored (t_block d)))) /\
      handles_at (offset + len (stored_block_bytes (t_block d))) ds'
  end.

(** The block decodes to the entries. *)
Definition decodes_to (b : StoredBlock) (entries : list (bytes * bytes)) : Prop :=
  bind (block_content b) _iter_block_entries = Ok entries.

(** The parts of [table_compressed]: its data block, stored as a Snappy
    frame, with the index value [00 17] that is its handle and the entry
    it holds; its index block; its footer. *)
Definition compressed_data_block : TableBlock :=
  mkTableBlock
    (mkBlock
       ([x15; x50]
        ++ [x00; x09; x01] ++ [x6b; x01; x09; x00; x00; x00; x00; x00; x00] ++ [x76]
        ++ [x00; x00; x00; x00; x01; x00; x00; x00])
       x01 [x00; x00; x00; x00])
    [x00; x17]
    [([x6b; x01; x09; x00; x00; x00; x00; x00; x00], [x76])].

Definition compressed_index_block : StoredBlock :=
  mkBlock
    ([x00; x01; x02] ++ [x6b] ++ [x00; x17]
     ++ [x00; x00; x00; x00; x01; x00; x00; x00])
    x00 [x00; x00; x00; x00].

Definition compressed_footer : bytes :=
  [x00; x00; x1c; x0e] ++ repeat x00 36
  ++ [x57; xfb; x80; x8b; x24; x75; x47; xdb].

(** [enc] reads as the length prefix [n] of a Snappy frame. *)
Definition length_prefix_of (enc : bytes) (n : Z) : Prop :=
  forall rest, _read_le_varint false (enc ++ rest) = (Some n, rest).

(** The number that a string of decimal digits spells in base [base],
    read from the left; in base 10 it is the file number as LevelDB
    writes it. *)
Definition digit_of (c : ascii) : Z := Z.of_nat (nat_of_ascii c) - 48.

Fixpoint base_value (base acc : Z) (s : string) : Z :=
  match s with
  | EmptyString => acc
  | String c s' => base_value base (base * acc + digit_of c) s'
  end.

(** * Properties *)

(** ** Sanity checks of the embedding *)

Example varint_300 : _read_le_varint true [xac; x02; x07] = (Some 300, [x07]).
Proof. reflexivity. Qed.

Example varint_partial : _read_le_varint true [x80] = (None, []).
Proof. reflexivity. Qed.

Example snappy_self_overlap :
  _snappy_decompress [x05; x00; x61; x01; x01] = Ok [x61; x61; x61; x61; x61].
Proof. reflexivity. Qed.

Example snappy_short_source :
  _snappy_decompress [x06; x04; x61; x62; x01; x03] = Ok [x61; x62; x62; x62; x62; x62].
Proof. reflexivity. Qed.

Example snappy_cut_literal_length : _snappy_decompress [x00; xf0] = Raise IndexError.
Proof. reflexivity. Qed.

(** ** Varint codec *)

Lemma varint_loop_none (n : nat) :
  forall i acc s,
    fst (varint_loop n i acc s) = None <->
    (length s < n)%nat /\ Forall continues s.
Proof.
  induction n as [|n IH]; intros i acc s; simpl.
  - split; [discriminate | intros [H _]; lia].
  - destruct s as [|b s]; simpl.
    + split; [intros _; split; [lia | constructor] | reflexivity].
    + destruct (Z.land (b2z b) 128 =? 0) eqn:E; simpl.
      * apply Z.eqb_eq in E.
        split; [discriminate | intros [_ H]; inversion H; subst; contradiction].
      * apply Z.eqb_neq in E. rewrite IH.
        split; intros [H1 H2]; split; try lia.
        -- constructor; assumption.
        -- inversion H2; assumption.
Qed.

(** C2, as the code has it: [_read_le_varint] returns [None] exactly when
    the stream ends before a byte with a clear high bit is read and before
    [limit] bytes are read, whether or not bytes were consumed before the
    end. *)
Theorem read_varint_none_iff (limit : nat) (s : bytes) :
  fst (read_varint limit s) = None <->
  (length s < limit)%nat /\ Forall continues s.
Proof. apply varint_loop_none. Qed.

(** C2 fails as stated: one continuation byte and then the end of the
    stream gives [None], although a byte was consumed; the accumulated
    value is not returned. *)
Lemma read_varint_partial_is_none :
  ~ (forall (limit : nat) (s : bytes),
       fst (read_varint limit s) = None -> s = []).
Proof.
  intros H. specialize (H 5%nat [x80] eq_refl). discriminate H.
Qed.

(** ** Lists and slices *)

Lemma len_nonneg {A} (l : list A) : 0 <= len l.
Proof. unfold len. lia. Qed.

Lemma len_of_length {A} (l : list A) (k : Z) :
  0 <= k -> length l = Z.to_nat k -> len l = k.
Proof. unfold len. lia. Qed.

Lemma len_app {A} (l1 l2 : list A) : len (l1 ++ l2) = len l1 + len l2.
Proof. unfold len. rewrite length_app. lia. Qed.

Lemma py_slice_inside {A} (l : list A) (a b : Z) :
  0 <= a <= len l -> a <= b ->
  py_slice l a b = firstn (Z.to_nat (Z.min b (len l) - a)) (skipn (Z.to_nat a) l).
Proof.
  intros Ha Hb. unfold py_slice, py_bound.
  destruct (a <? 0) eqn:E1; [apply Z.ltb_lt in E1; lia|].
  destruct (b <? 0) eqn:E2; [apply Z.ltb_lt in E2; lia|].
  rewrite (Z.min_l a) by lia. reflexivity.
Qed.

Lemma concat_repeat_S {A} (pat : list A) (n : nat) :
  concat (repeat pat (S n)) = pat ++ concat (repeat pat n).
Proof. reflexivity. Qed.

Lemma length_concat_repeat {A} (pat : list A) (n : nat) :
  length (concat (repeat pat n)) = (n * length pat)%nat.
Proof.
  induction n as [|n IH]; simpl; [reflexivity|].
  rewrite length_app, IH. reflexivity.
Qed.

Lemma nth_error_concat_repeat {A} (pat : list A) (n : nat) :
  forall i, (i < n * length pat)%nat ->
    nth_error (concat (repeat pat n)) i = nth_error pat (i mod length pat).
Proof.
  induction n as [|n IH]; intros i Hi; [simpl in Hi; lia|].
  rewrite concat_repeat_S.
  destruct (Nat.lt_ge_cases i (length pat)) as [Hlt|Hge].
  - rewrite nth_error_app1 by assumption.
    rewrite Nat.mod_small by assumption. reflexivity.
  - rewrite nth_error_app2 by assumption.
    rewrite IH by (simpl in Hi; lia).
    f_equal.
    replace i with ((i - length pat) + 1 * length pat)%nat at 2 by lia.
    rewrite Nat.Div0.mod_add. reflexivity.
Qed.

(** ** Snappy: the copy element *)

(** The source range of a copy that starts inside the output: the bytes
    from [len out - offset] on, at most [length] of them. *)
Lemma copy_source (out : bytes) (offset length : Z) :
  0 < offset <= len out -> 0 <= length ->
  py_slice out (len out - offset) (len out - offset + length) =
  firstn (Z.to_nat (Z.min length offset)) (skipn (Z.to_nat (len out - offset)) out).
Proof.
  intros Ho Hl. rewrite py_slice_inside by lia. f_equal. lia.
Qed.

Lemma length_tail_of {A} (l : list A) (k : Z) :
  0 <= k <= len l -> length (skipn (Z.to_nat (len l - k)) l) = Z.to_nat k.
Proof. intros H. rewrite length_skipn. unfold len in *. lia. Qed.

(** A copy with [offset <= length] writes the first [length] bytes of
    [length] repetitions of the last [offset] bytes of the output. *)
Lemma copy_bytes_overlap (out : bytes) (offset length : Z) :
  0 < offset <= len out -> offset <= length ->
  copy_bytes out offset length =
  firstn (Z.to_nat length)
    (concat (repeat (skipn (Z.to_nat (len out - offset)) out) (Z.to_nat length))).
Proof.
  intros Ho Hl. unfold copy_bytes.
  rewrite copy_source by lia.
  assert (Hpat := length_tail_of out offset ltac:(lia)).
  set (pat := skipn (Z.to_nat (len out - offset)) out) in *.
  destruct (offset <=? length) eqn:E; [|apply Z.leb_gt in E; lia].
  rewrite Z.min_r by lia.
  rewrite firstn_all2 by lia.
  unfold py_slice_to, bytes_mul, py_bound.
  destruct (length <? 0) eqn:E2; [apply Z.ltb_lt in E2; lia|].
  f_equal. unfold len. rewrite length_concat_repeat, Hpat.
  rewrite Z.min_l; [reflexivity|]. nia.
Qed.

(** C3, for a copy that starts inside the output ([offset <= len out]):
    when [offset < length] the bytes written are [length] bytes, the
    [i]-th of them being the byte [i mod offset] of the pattern that
    starts at [len out - offset]; when [offset >= length] they are the
    [length] bytes of the output from that position on. *)
Theorem copy_run_length (out : bytes) (offset length : Z) :
  0 < offset <= len out -> 0 <= length ->
  (offset < length ->
     len (copy_bytes out offset length) = length /\
     forall i, 0 <= i < length ->
       nth_error (copy_bytes out offset length) (Z.to_nat i) =
       nth_error out (Z.to_nat (len out - offset + i mod offset))) /\
  (length <= offset ->
     len (copy_bytes out offset length) = length /\
     copy_bytes out offset length =
     firstn (Z.to_nat length) (skipn (Z.to_nat (len out - offset)) out)).
Proof.
  intros Ho Hl. split.
  - intros Hlt. rewrite copy_bytes_overlap by lia.
    set (pat := skipn (Z.to_nat (len out - offset)) out).
    assert (Hpat : List.length pat = Z.to_nat offset) by (apply length_tail_of; lia).
    split.
    + apply len_of_length; [lia|].
      rewrite length_firstn, length_concat_repeat, Hpat. nia.
    + intros i Hi.
      rewrite nth_error_firstn.
      destruct (Nat.ltb_spec (Z.to_nat i) (Z.to_nat length)) as [_|H]; [|lia].
      rewrite nth_error_concat_repeat by (rewrite Hpat; nia).
      rewrite Hpat. unfold pat. rewrite nth_error_skipn. f_equal.
      rewrite <- Z2Nat.inj_mod by lia.
      rewrite <- Z2Nat.inj_add; [reflexivity | lia |].
      apply Z.mod_pos_bound; lia.
  - intros Hge.
    assert (Hlen : List.length (firstn (Z.to_nat length)
                     (skipn (Z.to_nat (len out - offset)) out)) = Z.to_nat length).
    { rewrite length_firstn, length_tail_of by lia. lia. }
    destruct (Z.eq_dec offset length) as [->|Hne].
    + rewrite copy_bytes_overlap by lia.
      set (pat := skipn (Z.to_nat (len out - length)) out).
      assert (Hpat : List.length pat = Z.to_nat length) by (apply length_tail_of; lia).
      assert (E : firstn (Z.to_nat length) (concat (repeat pat (Z.to_nat length))) =
                  firstn (Z.to_nat length) pat).
      { destruct (Z.to_nat length) eqn:En; [reflexivity|].
        rewrite concat_repeat_S, firstn_app, Hpat, Nat.sub_diag.
        rewrite firstn_O, app_nil_r. reflexivity. }
      rewrite E. split; [|reflexivity].
      apply len_of_length; [lia | exact Hlen].
    + unfold copy_bytes. rewrite copy_source by lia.
      destruct (offset <=? length) eqn:E; [apply Z.leb_le in E; lia|].
      rewrite Z.min_l by lia. split; [|reflexivity].
      apply len_of_length; [lia | exact Hlen].
Qed.

(** C3 fails as stated for a copy that starts before the output: the
    element [01 01] declares length 4 and offset 1; on an empty output it
    writes no byte at all, and the frame [00 01 01] decompresses, without
    error, to the empty string. *)
Lemma copy_before_output_start :
  copy_header 1 (b2z x01) [x01] = Ok (4, 1, []) /\
  copy_bytes [] 1 4 = [] /\
  _snappy_decompress [x00; x01; x01] = Ok [].
Proof. repeat split. Qed.

(** The copy of length 5 at offset 2 after [abc] writes [bcbcb]. *)
Lemma copy_run_length_witness :
  len (copy_bytes [x61; x62; x63] 2 5) = 5 /\
  copy_bytes [x61; x62; x63] 2 5 = [x62; x63; x62; x63; x62].
Proof.
  split.
  - destruct (copy_run_length [x61; x62; x63] 2 5) as [H _].
    + unfold len; simpl; lia.
    + lia.
    + apply H. lia.
  - reflexivity.
Defined.

(** ** Snappy: failure conditions *)

Lemma b2z_range (b : byte) : 0 <= b2z b < 256.
Proof.
  unfold b2z. pose proof (Byte.to_N_bounded b). lia.
Qed.

Lemma tag_bits (t : byte) :
  Z.shiftr (Z.land (b2z t) 252) 2 = Z.shiftr (b2z t) 2 /\
  Z.shiftr (Z.land (b2z t) 28) 2 = Z.land (Z.shiftr (b2z t) 2) 7 /\
  0 <= Z.shiftr (b2z t) 2 < 64 /\
  0 <= Z.land (b2z t) 3 < 4.
Proof. destruct t; vm_compute; intuition discriminate. Qed.

Lemma uint_le_app_zero (h : bytes) : uint_le (h ++ [x00]) = uint_le h.
Proof.
  induction h as [|b h IH]; simpl; [reflexivity|].
  rewrite IH. reflexivity.
Qed.

Lemma length_firstn_full {A} (k : nat) (l : list A) :
  (k <= length l)%nat -> length (firstn k l) = k.
Proof. intros H. rewrite length_firstn. lia. Qed.

(** [struct.unpack] on a read of [k] bytes fails exactly when the stream
    has fewer than [k] bytes left. *)
Lemma unpack_read (k : nat) (data : bytes) :
  unpack_le k (firstn k data) =
  if len data <? Z.of_nat k then Raise StructError else Ok (uint_le (firstn k data)).
Proof.
  unfold unpack_le, len. rewrite length_firstn.
  destruct (Z.of_nat (length data) <? Z.of_nat k) eqn:E.
  - apply Z.ltb_lt in E.
    destruct (Nat.eqb_spec (Nat.min k (length data)) k); [lia | reflexivity].
  - apply Z.ltb_ge in E.
    destruct (Nat.eqb_spec (Nat.min k (length data)) k); [reflexivity | lia].
Qed.

Ltac calc := cbn -[Z.add Z.mul Z.sub Z.shiftr Z.shiftl Z.land Z.lor len].

Ltac ok_eq :=
  repeat match goal with
         | |- Ok _ = Ok _ => apply f_equal
         | |- (_, _) = (_, _) => apply f_equal2
         end;
  try reflexivity; try lia; try (f_equal; lia).

Lemma len_lt_0_false {A} (l : list A) : (len l <? 0) = false.
Proof. apply Z.ltb_ge, len_nonneg. Qed.

(** The literal header of the code against the description of the
    format. *)
Lemma literal_length_spec (t : byte) (data : bytes) :
  Z.land (b2z t) 3 = 0 ->
  literal_length (b2z t) data =
  if len data <? header_bytes (b2z t) then Raise (cut_header_exn (b2z t))
  else Ok (element_length (b2z t) (firstn (Z.to_nat (header_bytes (b2z t))) data),
           skipn (Z.to_nat (header_bytes (b2z t))) data).
Proof.
  intros Htag. destruct (tag_bits t) as (H1 & _ & H3 & _).
  unfold literal_length, header_bytes, element_length, cut_header_exn, header_bytes.
  rewrite H1, Htag. change (0 =? 0) with true. cbv iota.
  remember (Z.shiftr (b2z t) 2) as m eqn:Hm. clear Hm H1.
  destruct (m <? 60) eqn:E0.
  { rewrite len_lt_0_false. calc. ok_eq. }
  apply Z.ltb_ge in E0.
  assert (Hc : m = 60 \/ m = 61 \/ m = 62 \/ m = 63) by lia.
  destruct Hc as [-> | [-> | [-> | ->]]]; simpl Z.eqb; cbv iota;
    simpl Z.sub; unfold read.
  - destruct data as [|b data]; [reflexivity|].
    replace (len (b :: data) <? 1) with false
      by (symmetry; apply Z.ltb_ge; unfold len; simpl length; lia).
    change (Z.to_nat 1) with 1%nat. calc. ok_eq.
  - change (Z.to_nat 2) with 2%nat. rewrite unpack_read.
    change (Z.of_nat 2) with 2.
    destruct (len data <? 2); calc; [reflexivity|]. ok_eq.
  - change (Z.to_nat 3) with 3%nat.
    unfold unpack_le. rewrite length_app, uint_le_app_zero.
    change (length [x00]) with 1%nat. rewrite length_firstn.
    destruct (len data <? 3) eqn:E; unfold len in E.
    + apply Z.ltb_lt in E.
      destruct (Nat.eqb_spec (Nat.min 3 (length data) + 1) 4); [lia | reflexivity].
    + apply Z.ltb_ge in E.
      destruct (Nat.eqb_spec (Nat.min 3 (length data) + 1) 4); [|lia].
      calc. ok_eq.
  - change (Z.to_nat 4) with 4%nat. rewrite unpack_read.
    change (Z.of_nat 4) with 4.
    destruct (len data <? 4); calc; [reflexivity|]. ok_eq.
Qed.

(** The copy header of the code against the description of the format. *)
Lemma copy_header_spec (t : byte) (data : bytes) :
  Z.land (b2z t) 3 <> 0 ->
  copy_header (Z.land (b2z t) 3) (b2z t) data =
  if len data <? header_bytes (b2z t) then Raise (cut_header_exn (b2z t))
  else Ok (element_length (b2z t) (firstn (Z.to_nat (header_bytes (b2z t))) data),
           element_offset (b2z t) (firstn (Z.to_nat (header_bytes (b2z t))) data),
           skipn (Z.to_nat (header_bytes (b2z t))) data).
Proof.
  intros Htag. destruct (tag_bits t) as (H1 & H2 & _ & H4).
  unfold copy_header, header_bytes, element_length, element_offset,
    cut_header_exn, header_bytes, _SNAPPY_COPY_1BYTE, _SNAPPY_COPY_2BYTE.
  rewrite H1, H2.
  remember (Z.land (b2z t) 3) as tag eqn:Ht. clear Ht.
  assert (Hc : tag = 1 \/ tag = 2 \/ tag = 3) by lia.
  destruct Hc as [-> | [-> | ->]]; simpl Z.eqb; cbv iota; unfold read.
  - destruct data as [|b data]; [reflexivity|].
    replace (len (b :: data) <? 1) with false
      by (symmetry; apply Z.ltb_ge; unfold len; simpl length; lia).
    change (Z.to_nat 1) with 1%nat. calc. ok_eq.
  - change (Z.to_nat 2) with 2%nat. rewrite unpack_read.
    change (Z.of_nat 2) with 2.
    destruct (len data <? 2); calc; [reflexivity|]. ok_eq.
  - change (Z.to_nat 4) with 4%nat. rewrite unpack_read.
    change (Z.of_nat 4) with 4.
    destruct (len data <? 4); calc; [reflexivity|]. ok_eq.
Qed.

Lemma len_firstn_ltb (n : Z) (body : bytes) :
  (len (firstn (Z.to_nat n) body) <? n) = (len body <? n).
Proof.
  unfold len. rewrite length_firstn.
  destruct (Z.of_nat (length body) <? n) eqn:E.
  - apply Z.ltb_lt in E. apply Z.ltb_lt. lia.
  - apply Z.ltb_ge in E. apply Z.ltb_ge. lia.
Qed.

(** One iteration of the [while True] loop, in terms of the description
    of the element at the head of the stream. *)
Lemma snappy_loop_step (fuel : nat) (t : byte) (rest out : bytes) :
  snappy_loop (S fuel) (t :: rest) out =
  if len rest <? header_bytes (b2z t) then Raise (cut_header_exn (b2z t))
  else
    let hdr := firstn (Z.to_nat (header_bytes (b2z t))) rest in
    let body := skipn (Z.to_nat (header_bytes (b2z t))) rest in
    if Z.land (b2z t) 3 =? 0 then
      if len body <? element_length (b2z t) hdr
      then Raise (ValueError "Truncated snappy literal")
      else snappy_loop fuel (skipn (Z.to_nat (element_length (b2z t) hdr)) body)
             (out ++ firstn (Z.to_nat (element_length (b2z t) hdr)) body)
    else
      if element_offset (b2z t) hdr =? 0
      then Raise (ValueError "Snappy backreference offset cannot be 0")
      else snappy_loop fuel body
             (out ++ copy_bytes out (element_offset (b2z t) hdr)
                       (element_length (b2z t) hdr)).
Proof.
  cbn [snappy_loop]. unfold _SNAPPY_LITERAL.
  destruct (Z.land (b2z t) 3 =? 0) eqn:E.
  - apply Z.eqb_eq in E. rewrite literal_length_spec by assumption.
    destruct (len rest <? header_bytes (b2z t)); [reflexivity|].
    cbn [bind]. unfold read. rewrite len_firstn_ltb. reflexivity.
  - apply Z.eqb_neq in E. rewrite copy_header_spec by assumption.
    destruct (len rest <? header_bytes (b2z t)); reflexivity.
Qed.

Lemma header_bytes_nonneg (t : byte) : 0 <= header_bytes (b2z t).
Proof.
  destruct (tag_bits t) as (_ & _ & H3 & _). unfold header_bytes.
  repeat match goal with |- context [if ?c then _ else _] => destruct c eqn:? end;
    lia.
Qed.

(** The loop of the code realises the run of the elements, whenever its
    fuel is at least the length of the stream. *)
Lemma snappy_loop_elements (fuel : nat) :
  forall data out, (length data <= fuel)%nat ->
    snappy_elements data out (snappy_loop fuel data out).
Proof.
  induction fuel as [|fuel IH]; intros [|t rest] out Hf;
    try (apply elements_end); [simpl in Hf; lia|].
  simpl in Hf. rewrite snappy_loop_step.
  pose proof (header_bytes_nonneg t) as Hh.
  destruct (len rest <? header_bytes (b2z t)) eqn:E1.
  { apply Z.ltb_lt in E1. apply elements_cut_header. assumption. }
  apply Z.ltb_ge in E1. cbv zeta.
  destruct (Z.land (b2z t) 3 =? 0) eqn:E2.
  - apply Z.eqb_eq in E2.
    destruct (len _ <? element_length _ _) eqn:E3.
    + apply Z.ltb_lt in E3. apply elements_cut_literal; assumption.
    + apply Z.ltb_ge in E3. apply elements_literal; try assumption.
      apply IH. rewrite !length_skipn. lia.
  - apply Z.eqb_neq in E2.
    destruct (element_offset _ _ =? 0) eqn:E3.
    + apply Z.eqb_eq in E3. apply elements_zero_offset; assumption.
    + apply Z.eqb_neq in E3. apply elements_copy; try assumption.
      apply IH. rewrite length_skipn. lia.
Qed.

(** The run of the elements has one result, and the loop computes it. *)
Lemma snappy_elements_loop (data out : bytes) (r : result bytes) :
  snappy_elements data out r ->
  forall fuel, (length data <= fuel)%nat -> snappy_loop fuel data out = r.
Proof.
  induction 1 as [out | t rest out Hc | t rest out Hh Ht Hl | t rest out Hh Ht Ho
                 | t rest out r Hh Ht hdr body n Hl Hr IH
                 | t rest out r Hh Ht hdr body Ho Hr IH];
    intros [|fuel] Hf; try reflexivity; try (simpl in Hf; lia);
    simpl in Hf; rewrite snappy_loop_step; cbv zeta.
  - apply Z.ltb_lt in Hc. rewrite Hc. reflexivity.
  - apply Z.ltb_ge in Hh. apply Z.ltb_lt in Hl. apply Z.eqb_eq in Ht.
    rewrite Hh, Ht, Hl. reflexivity.
  - apply Z.ltb_ge in Hh. apply Z.eqb_neq in Ht. apply Z.eqb_eq in Ho.
    rewrite Hh, Ht, Ho. reflexivity.
  - apply Z.ltb_ge in Hh. apply Z.ltb_ge in Hl. apply Z.eqb_eq in Ht.
    rewrite Hh, Ht. fold hdr body. rewrite Hl.
    apply IH. unfold n, body. rewrite !length_skipn. lia.
  - apply Z.ltb_ge in Hh. apply Z.eqb_neq in Ht. apply Z.eqb_neq in Ho.
    rewrite Hh, Ht. fold hdr body. rewrite Ho.
    apply IH. unfold body. rewrite length_skipn. lia.
Qed.

(** The loop never runs out of fuel. *)
Lemma snappy_elements_not_exhausted (data out : bytes) (r : result bytes) :
  snappy_elements data out r -> r <> Raise Exhausted.
Proof.
  induction 1; try discriminate; try assumption.
  unfold cut_header_exn. destruct (_ =? 1); discriminate.
Qed.

(** A failure of the decompressor is a failure of the run of the
    elements or the length mismatch. *)
Lemma snappy_failure_source (data : bytes) (e : exn) :
  _snappy_decompress data = Raise e ->
  (exists body, snappy_elements body [] (Raise e)) \/
  e = ValueError "Snappy decompression length mismatch".
Proof.
  unfold _snappy_decompress.
  destruct (_read_le_varint false data) as [n body].
  pose proof (snappy_loop_elements (length body) body [] (le_n _)) as Hrun.
  destruct (snappy_loop (length body) body []) as [out|e0]; cbn [bind].
  - destruct n as [n|]; [destruct (n =? len out)|]; intros H; inversion H; auto.
  - intros H. inversion H; subst e0. left. exists body. assumption.
Qed.

Lemma snappy_loop_not_exhausted (data out : bytes) :
  snappy_loop (length data) data out <> Raise Exhausted.
Proof.
  apply (snappy_elements_not_exhausted data out).
  apply snappy_loop_elements, le_n.
Qed.

(** C4, as the code has it.  The decompressor fails exactly when the run
    of the elements fails or the final length check does: an element
    header that is cut short (the extra length bytes of a literal as well
    as the offset bytes of a copy) raises the unchecked [IndexError] or
    [struct.error]; literal data that is cut short and a copy offset of
    zero raise the [ValueError]s named [MalformedSnappy]; a produced
    length that differs from the prefix, or a prefix that is missing,
    raises the [ValueError] named [LengthMismatch]; every other input
    gives the output. *)
Theorem snappy_decompress_frame (data : bytes) (r : result bytes) :
  _snappy_decompress data = r <-> snappy_frame data r.
Proof.
  unfold _snappy_decompress.
  destruct (_read_le_varint false data) as [n body] eqn:Ev.
  pose proof (snappy_loop_elements (length body) body [] (le_n _)) as Hrun.
  split.
  - intros <-.
    destruct (snappy_loop (length body) body []) as [out|e]; cbn [bind].
    + destruct n as [n|].
      * destruct (n =? len out) eqn:E.
        -- apply Z.eqb_eq in E. subst n. eapply frame_output; eassumption.
        -- apply Z.eqb_neq in E.
           eapply frame_length_mismatch; try eassumption. congruence.
      * eapply frame_length_mismatch; try eassumption. discriminate.
    + eapply frame_element_failure; eassumption.
  - intros [n' body' e Hv He | n' body' out Hv Ho Hn | body' out Hv Ho];
      rewrite Ev in Hv; inversion Hv; subst; clear Hv.
    + rewrite (snappy_elements_loop _ _ _ He _ (le_n _)). reflexivity.
    + rewrite (snappy_elements_loop _ _ _ Ho _ (le_n _)). cbn [bind].
      destruct n' as [n|]; [|reflexivity].
      destruct (n =? len out) eqn:E; [|reflexivity].
      apply Z.eqb_eq in E. congruence.
    + rewrite (snappy_elements_loop _ _ _ Ho _ (le_n _)). cbn [bind].
      rewrite Z.eqb_refl. reflexivity.
Qed.

(** The failures of the decompressor by kind: the two named errors, and
    the unchecked exceptions of a header that is cut short. *)
Lemma snappy_failure_kinds (data : bytes) (e : exn) :
  _snappy_decompress data = Raise e ->
  snappy_error_of e = Some MalformedSnappy \/
  snappy_error_of e = Some LengthMismatch \/
  e = IndexError \/ e = StructError.
Proof.
  intros H. apply snappy_failure_source in H.
  destruct H as [He | He]; [|subst e; right; left; reflexivity].
  destruct He as (body & He).
  remember (Raise e) as r eqn:Hr. revert e Hr.
  induction He; intros e' Hr; try discriminate;
    try (inversion Hr; subst e'; clear Hr).
  - unfold cut_header_exn. destruct (_ =? 1); auto.
  - left. reflexivity.
  - left. reflexivity.
  - apply IHHe. assumption.
  - apply IHHe. assumption.
Qed.

(** C4 fails as stated.  The frame [00 f0] ends right after the tag of a
    literal that has one extra length byte: no data byte of the literal
    is missing, yet the decompressor fails, and with an [IndexError],
    which is neither of the two named errors.  The frame [00 01] ends
    inside a copy header and fails with the same [IndexError], not with
    [MalformedSnappy]. *)
Lemma snappy_cut_header_unnamed_error :
  Z.land (b2z xf0) 3 = 0 /\ header_bytes (b2z xf0) = 1 /\
  _snappy_decompress [x00; xf0] = Raise IndexError /\
  _snappy_decompress [x00; x01] = Raise IndexError /\
  snappy_error_of IndexError = None.
Proof. repeat split. Qed.

(** ** Table files *)

Example table_compressed_run :
  _iter_table_file table_compressed =
  ([mkRecord [x6b; x01; x09; x00; x00; x00; x00; x00; x00] [x76] 9 Live true], None).
Proof. vm_compute. reflexivity. Qed.

(** A file whose last 8 bytes are not the magic is refused. *)
Example table_bad_magic :
  _iter_table_file (repeat x00 48) = ([], Some (ValueError "Invalid magic")).
Proof. vm_compute. reflexivity. Qed.

Lemma last8_slice (k : bytes) :
  8 <= len k -> py_slice_from k (-8) = skipn (length k - 8) k.
Proof.
  intros H. unfold py_slice_from, py_bound. change (-8 <? 0) with true.
  cbv iota. f_equal. unfold len in *. lia.
Qed.

Lemma short_key_slice (k : bytes) : len k < 8 -> py_slice_from k (-8) = k.
Proof.
  intros H. unfold py_slice_from, py_bound. change (-8 <? 0) with true.
  cbv iota. rewrite Z.max_l by lia. reflexivity.
Qed.

(** A key shorter than 8 bytes stops the reader at [struct.unpack]. *)
Lemma table_record_short_key (k v : bytes) :
  len k < 8 -> table_record k v = Raise StructError.
Proof.
  intros H. unfold table_record. rewrite short_key_slice by assumption.
  unfold unpack_le.
  destruct (Nat.eqb_spec (length k) 8) as [E|E]; [unfold len in H; lia|].
  reflexivity.
Qed.

(** A key of exactly 8 bytes gives a record in state [Unknown]. *)
Lemma table_record_key_of_8 (k v : bytes) :
  len k = 8 ->
  table_record k v = Ok (mkRecord k v (Z.shiftr (uint_le k) 8) Unknown true).
Proof.
  intros H. unfold table_record. rewrite last8_slice by lia.
  assert (E : length k = 8%nat) by (unfold len in H; lia).
  rewrite E. cbn [Nat.sub skipn]. unfold unpack_le. rewrite E. cbn [Nat.eqb bind].
  rewrite H. reflexivity.
Qed.

(** What lines 205-209 make of an entry, when they make a record. *)
Lemma table_record_ok (k v : bytes) (r : Record_) :
  table_record k v = Ok r ->
  key r = k /\ value r = v /\ _from_ldb r = true /\ 8 <= len k /\
  seq r = Z.shiftr (uint_le (skipn (length k - 8) k)) 8 /\
  (len k = 8 -> state r = Unknown) /\
  (8 < len k ->
   state r = if b2z (nth (length k - 8) k x00) =? 0 then Deleted else Live).
Proof.
  intros H.
  destruct (Z.lt_ge_cases (len k) 8) as [Hs|Hl].
  { rewrite table_record_short_key in H by assumption. discriminate. }
  unfold table_record in H. rewrite last8_slice in H by assumption.
  unfold unpack_le in H. rewrite length_skipn in H.
  destruct (Nat.eqb_spec (length k - (length k - 8)) 8) as [_|E];
    [|unfold len in Hl; lia].
  cbn [bind] in H. inversion H; subst r; clear H. cbn [key value seq state _from_ldb].
  repeat split; try assumption.
  - intros E. rewrite E. reflexivity.
  - intros E.
    destruct (len k <=? 8) eqn:E1; [apply Z.leb_le in E1; lia|].
    destruct (8 <? len k) eqn:E2; [|apply Z.ltb_ge in E2; lia].
    reflexivity.
Qed.

Lemma block_records_in (es : list (bytes * bytes)) (r : Record_) :
  In r (fst (block_records es)) -> made_from_entry r.
Proof.
  induction es as [|[k v] es IH]; simpl; [tauto|].
  destruct (table_record k v) as [r0|e] eqn:E; simpl; [|tauto].
  intros [<- | H]; [exists k, v; assumption | auto].
Qed.

Lemma table_blocks_in (f : bytes) (idx : list (bytes * bytes)) (r : Record_) :
  In r (fst (table_blocks f idx)) -> made_from_entry r.
Proof.
  induction idx as [|[ik hb] idx IH]; simpl; [tauto|].
  destruct (_read_block_handle hb) as [[off n] rest].
  destruct (read_block f off n) as [[block_data c]|e]; simpl; [|tauto].
  destruct (_iter_block_entries block_data) as [es|e]; simpl; [|tauto].
  destruct (block_records es) as [rs [e|]] eqn:E; simpl.
  - intros H. apply (block_records_in es). rewrite E. assumption.
  - rewrite in_app_iff. intros [H|H]; [|auto].
    apply (block_records_in es). rewrite E. assumption.
Qed.

Lemma iter_table_file_in (f : bytes) (r : Record_) :
  In r (fst (_iter_table_file f)) -> made_from_entry r.
Proof.
  unfold _iter_table_file.
  destruct (len f <? _TABLE_FOOTER_SIZE); simpl; [tauto|].
  destruct (_read_block_handle _) as [mh footer1].
  destruct (_read_block_handle footer1) as [[ioff ilen] rest].
  destruct (unpack_le 8 _) as [magic|e]; simpl; [|tauto].
  destruct (negb (magic =? _TABLE_MAGIC)); simpl; [tauto|].
  destruct (read_block f ioff ilen) as [[index_data c]|e]; simpl; [|tauto].
  destruct (_iter_block_entries index_data) as [idx|e]; simpl; [|tauto].
  apply table_blocks_in.
Qed.




(** C9 at the failing input: a data-block entry whose key is 3 bytes
    long.  The reader raises [struct.error] at [struct.unpack] and emits
    no record, where the claim has a record in state [Unknown]. *)
Theorem table_key_of_3_raises :
  _iter_table_file table_key_of_3 = ([], Some StructError).
Proof. vm_compute. reflexivity. Qed.

(** ** Log files *)

Example log_foo_bar :
  _iter_log_file (log_of_batch batch_foo_bar x15) =
  [mkRecord [x66; x6f; x6f] [x62; x61; x72] 42 Live false].
Proof. vm_compute. reflexivity. Qed.

Example log_deleted_k :
  _iter_log_file (log_of_batch batch_deleted_k x0f) =
  [mkRecord [x6b] [] 7 Deleted false].
Proof. vm_compute. reflexivity. Qed.

(** A batch split over two physical blocks, a [FIRST] fragment that
    fills the first block and a [LAST] fragment in the second, is yielded
    as one batch: its length, its first and its last byte. *)
Example log_first_last :
  map (fun b => (len b, hd x00 b, last b x00))
    (_iter_log_batches
       (([x00; x00; x00; x00; xf9; x7f; x02] ++ repeat x61 (Z.to_nat 32761))
        ++ [x00; x00; x00; x00; x03; x00; x04] ++ [x62; x62; x62]))
  = [(32764, x61, x62)].
Proof. vm_compute. reflexivity. Qed.

Lemma varint_loop_rest (n : nat) :
  forall i acc s, (length (snd (varint_loop n i acc s)) <= length s)%nat.
Proof.
  induction n as [|n IH]; intros i acc [|b s]; simpl; try lia.
  destruct (Z.land (b2z b) 128 =? 0); simpl; [lia|].
  specialize (IH (i + 1) (Z.lor acc (Z.shiftl (Z.land (b2z b) 127) (i * 7))) s).
  lia.
Qed.

Lemma read_le_varint_rest (g : bool) (s : bytes) (v : option Z) (s' : bytes) :
  _read_le_varint g s = (v, s') -> (length s' <= length s)%nat.
Proof.
  intros H. unfold _read_le_varint, read_varint in H.
  pose proof (varint_loop_rest (if g then 5%nat else 10%nat) 0 0 s) as Hl.
  rewrite H in Hl. exact Hl.
Qed.

Lemma read_split (n : Z) (s a b : bytes) :
  read n s = (a, b) ->
  s = a ++ b /\ length a = Nat.min (Z.to_nat n) (length s).
Proof.
  unfold read. intros H. injection H as <- <-.
  rewrite firstn_skipn, length_firstn. split; reflexivity.
Qed.

Lemma read_rest (n : Z) (s a b : bytes) :
  read n s = (a, b) -> (length b <= length s)%nat.
Proof.
  unfold read. intros H. inversion H. rewrite length_skipn. lia.
Qed.

(** *** The loop over one batch *)


Section BatchLoop.

Variables (base count : Z).

(** The records of a batch: the [k]-th record yielded from loop index
    [i] on carries the sequence [base + i + k], and comes from the log. *)
Lemma batch_loop_nth (fuel : nat) :
  forall buf i k r,
    nth_error (batch_loop fuel buf base count i) k = Some r ->
    seq r = base + i + Z.of_nat k /\ _from_ldb r = false.
Proof.
  induction fuel as [|fuel IH]; intros buf i k r; cbn [batch_loop].
  { destruct k; simpl; discriminate. }
  destruct (i <? count); [|destruct k; simpl; discriminate].
  destruct buf as [|raw_state buf1]; [destruct k; simpl; discriminate|].
  destruct (_read_le_varint true buf1) as [[key_len|] buf2];
    [|destruct k; simpl; discriminate].
  destruct (read key_len buf2) as [ky buf3].
  destruct (negb (is_deleted (key_state_of raw_state))).
  - destruct (_read_le_varint true buf3) as [[val_len|] buf4];
      [|destruct k; simpl; discriminate].
    destruct (read val_len buf4) as [vl buf5].
    destruct k as [|k]; simpl.
    + intros H. inversion H; subst r. simpl. split; [lia | reflexivity].
    + intros H. apply IH in H. destruct H as [H1 H2]. split; [lia | assumption].
  - destruct k as [|k]; simpl.
    + intros H. inversion H; subst r. simpl. split; [lia | reflexivity].
    + intros H. apply IH in H. destruct H as [H1 H2]. split; [lia | assumption].
Qed.


(** The reads that are checked do stop the batch: no state byte, or a
    key length or value length that is [None]. *)
Lemma log_short_varint_stops (fuel : nat) (raw_state : byte) (buf1 : bytes)
    (i : Z) :
  batch_loop (S fuel) [] base count i = [] /\
  (fst (_read_le_varint true buf1) = None ->
   batch_loop (S fuel) (raw_state :: buf1) base count i = []).
Proof.
  cbn [batch_loop]. split.
  - destruct (i <? count); reflexivity.
  - intros H. destruct (i <? count); [|reflexivity].
    destruct (_read_le_varint true buf1) as [[v|] rest]; [discriminate H | reflexivity].
Qed.

Lemma batch_loop_fuel (f1 : nat) :
  forall f2 buf i,
    (length buf <= f1)%nat -> (length buf <= f2)%nat ->
    batch_loop f1 buf base count i = batch_loop f2 buf base count i.
Proof.
  induction f1 as [|f1 IH]; intros [|f2] buf i H1 H2;
    try reflexivity; cbn [batch_loop].
  - destruct buf; [|simpl in H1; lia]. destruct (i <? count); reflexivity.
  - destruct buf; [|simpl in H2; lia]. destruct (i <? count); reflexivity.
  - destruct (i <? count); [|reflexivity].
    destruct buf as [|raw_state buf1]; [reflexivity|]. simpl in H1, H2.
    destruct (_read_le_varint true buf1) as [[key_len|] buf2] eqn:E1; [|reflexivity].
    apply read_le_varint_rest in E1.
    destruct (read key_len buf2) as [ky buf3] eqn:E2. apply read_rest in E2.
    destruct (negb (is_deleted (key_state_of raw_state))).
    + destruct (_read_le_varint true buf3) as [[val_len|] buf4] eqn:E3; [|reflexivity].
      apply read_le_varint_rest in E3.
      destruct (read val_len buf4) as [vl buf5] eqn:E4. apply read_rest in E4.
      f_equal. apply IH; lia.
    + f_equal. apply IH; lia.
Qed.

End BatchLoop.

(** C5.  In a batch whose 12-byte header decodes to the base sequence
    [base] and the count [count], the [i]-th record yielded (from 0) has
    [seq = base + i] and is marked as coming from a log file. *)
Theorem log_batch_sequence (batch buf : bytes) (base count : Z) (i : nat) (r : Record_) :
  batch_header batch = Some (base, count, buf) ->
  nth_error (decode_batch batch) i = Some r ->
  seq r = base + Z.of_nat i /\ _from_ldb r = false.
Proof.
  intros Hh Hn. unfold decode_batch in Hn. rewrite Hh in Hn.
  apply batch_loop_nth in Hn. destruct Hn as [H1 H2]. split; [lia | assumption].
Qed.

(** The record of [batch_foo_bar]: the first of base 42. *)
Lemma log_batch_sequence_witness :
  seq (mkRecord [x66; x6f; x6f] [x62; x61; x72] 42 Live false) = 42 + Z.of_nat 0 /\
  _from_ldb (mkRecord [x66; x6f; x6f] [x62; x61; x72] 42 Live false) = false.
Proof.
  apply (log_batch_sequence batch_foo_bar
           [x01; x03; x66; x6f; x6f; x03; x62; x61; x72] 42 1 0).
  - reflexivity.
  - reflexivity.
Defined.


(** C7 at the failing inputs.  A batch that ends inside the value bytes
    of a record still yields that record, with the bytes that were
    there; so does a batch that ends inside the key bytes of a deleted
    record.  The claim has the batch stop without such a record. *)
Theorem log_short_key_or_value_still_yields :
  decode_batch batch_cut_value = [mkRecord [x6b] [x61; x62] 7 Live false] /\
  decode_batch batch_cut_key = [mkRecord [x61; x62] [] 7 Deleted false].
Proof. split; vm_compute; reflexivity. Qed.

Lemma frag_loop_end (fuel : nat) (pos : Z) (in_record : bool) (block : bytes) :
  frag_loop fuel [] pos in_record block = ([], (in_record, block)).
Proof.
  destruct fuel; cbn [frag_loop]; [reflexivity|].
  destruct (pos <? _LOG_BLOCK_SIZE - 6); reflexivity.
Qed.

Lemma read_app_exact (n : Z) (a b : bytes) :
  len a = n -> read n (a ++ b) = (a, b).
Proof.
  intros H. unfold read.
  assert (E : Z.to_nat n = length a) by (unfold len in H; lia).
  rewrite E, firstn_app, skipn_app, Nat.sub_diag, firstn_all, skipn_all.
  simpl. rewrite app_nil_r. reflexivity.
Qed.

Lemma read_short (n : Z) (a : bytes) : len a <= n -> read n a = (a, []).
Proof.
  intros H. unfold read. unfold len in H.
  rewrite firstn_all2, skipn_all2 by lia. reflexivity.
Qed.

(** C10.  A fragment whose declared payload length exceeds what is left
    of the physical block ([header ++ avail] is all that is left of the
    chunk at the fragment) is handled as any fragment of its type, with
    the bytes [avail] as its payload, and nothing more is yielded from
    the block; and a full block [chunk] is decoded on its own, the bytes
    [next] that follow it in the file being read only afterwards, as the
    next blocks.  No step of either loop can raise. *)
Theorem log_overlong_fragment (fuel fuel' : nat) (header avail chunk next : bytes)
    (pos : Z) (st : log_state) :
  len header = 7 ->
  pos < _LOG_BLOCK_SIZE - 6 ->
  len avail < fragment_length header ->
  len chunk = _LOG_BLOCK_SIZE ->
  frag_loop (S fuel) (header ++ avail) pos (fst st) (snd st)
    = fragment_action (fragment_type header) avail st /\
  chunk_loop (S fuel') (chunk ++ next) (fst st) (snd st)
    = fst (frag_loop (length chunk) chunk 0 (fst st) (snd st))
      ++ chunk_loop fuel' next
           (fst (snd (frag_loop (length chunk) chunk 0 (fst st) (snd st))))
           (snd (snd (frag_loop (length chunk) chunk 0 (fst st) (snd st)))).
Proof.
  intros Hh Hp Ha Hc. destruct st as [in_record block]. cbn [fst snd]. split.
  - cbn [frag_loop].
    apply Z.ltb_lt in Hp. rewrite Hp.
    rewrite (read_app_exact 7 header avail Hh).
    rewrite Hh. change (7 <? 7) with false. cbv iota.
    fold (fragment_length header). fold (fragment_type header).
    rewrite (read_short (fragment_length header) avail) by lia.
    rewrite !frag_loop_end. unfold fragment_action, emit. cbn [fst snd].
    destruct (fragment_type header =? _LOG_FULL); [reflexivity|].
    destruct (fragment_type header =? _LOG_FIRST); [reflexivity|].
    destruct (fragment_type header =? _LOG_MIDDLE);
      [destruct in_record; reflexivity|].
    destruct (fragment_type header =? _LOG_LAST);
      [destruct in_record; reflexivity|].
    reflexivity.
  - cbn [chunk_loop]. rewrite (read_app_exact _LOG_BLOCK_SIZE chunk next Hc).
    destruct chunk as [|c chunk]; [discriminate Hc|].
    destruct (frag_loop _ _ _ _ _) as [batches [in_record' block']].
    reflexivity.
Qed.

(** A [FULL] fragment that declares 10 payload bytes where 3 are left in
    the block yields those 3 bytes. *)
Lemma log_overlong_fragment_witness :
  frag_loop 1 ([x00; x00; x00; x00; x0a; x00; x01] ++ [x61; x62; x63]) 0 false []
  = ([[x61; x62; x63]], (false, [])).
Proof.
  destruct (log_overlong_fragment 0 0 [x00; x00; x00; x00; x0a; x00; x01]
              [x61; x62; x63] (repeat x00 (Z.to_nat 32768)) [x01] 0 (false, []))
    as [H _].
  - reflexivity.
  - reflexivity.
  - reflexivity.
  - unfold len. rewrite repeat_length. reflexivity.
  - exact H.
Defined.

(** *** The loops are given enough fuel *)

Lemma frag_loop_fuel (f1 : nat) :
  forall f2 buf pos in_record block,
    (length buf <= f1)%nat -> (length buf <= f2)%nat ->
    frag_loop f1 buf pos in_record block = frag_loop f2 buf pos in_record block.
Proof.
  induction f1 as [|f1 IH]; intros [|f2] buf pos in_record block H1 H2;
    try reflexivity.
  - destruct buf; [|simpl in H1; lia]. rewrite !frag_loop_end. reflexivity.
  - destruct buf; [|simpl in H2; lia]. rewrite !frag_loop_end. reflexivity.
  - cbn [frag_loop].
    destruct (pos <? _LOG_BLOCK_SIZE - 6); [|reflexivity].
    destruct (read 7 buf) as [header buf1] eqn:E1.
    destruct (len header <? 7) eqn:E; [reflexivity|].
    apply Z.ltb_ge in E.
    assert (Hb : (length buf1 + 7 <= length buf)%nat).
    { apply read_split in E1. destruct E1 as [-> El].
      unfold len in E. rewrite length_app. lia. }
    destruct (read _ buf1) as [payload buf2] eqn:E2. apply read_rest in E2.
    assert (Hi : forall p ir bl,
               frag_loop f1 buf2 p ir bl = frag_loop f2 buf2 p ir bl)
      by (intros; apply IH; lia).
    rewrite !Hi. reflexivity.
Qed.

Lemma chunk_loop_fuel (f1 : nat) :
  forall f2 f in_record block,
    (length f <= f1)%nat -> (length f <= f2)%nat ->
    chunk_loop f1 f in_record block = chunk_loop f2 f in_record block.
Proof.
  induction f1 as [|f1 IH]; intros [|f2] f in_record block H1 H2;
    try reflexivity; cbn [chunk_loop].
  - destruct f; [reflexivity | simpl in H1; lia].
  - destruct f; [reflexivity | simpl in H2; lia].
  - destruct (read _LOG_BLOCK_SIZE f) as [chunk f'] eqn:E.
    destruct chunk as [|c chunk]; [reflexivity|].
    assert (Hl : (length f' < length f)%nat).
    { apply read_split in E. destruct E as [-> _].
      rewrite length_app. simpl. lia. }
    destruct (frag_loop _ _ _ _ _) as [batches [in_record' block']].
    f_equal. apply IH; lia.
Qed.

Lemma varint_loop_consumes (n : nat) (i acc : Z) (b : byte) (s : bytes) :
  (length (snd (varint_loop (S n) i acc (b :: s))) <= length s)%nat.
Proof.
  cbn [varint_loop]. destruct (Z.land (b2z b) 128 =? 0); simpl; [lia|].
  apply varint_loop_rest.
Qed.

Lemma read_opt_rest (n : option Z) (s a b : bytes) :
  read_opt n s = (a, b) -> (length b <= length s)%nat.
Proof.
  destruct n as [n|]; simpl.
  - apply read_rest.
  - intros H. inversion H. simpl. lia.
Qed.

(** While the cursor is before the restart array and the restart array
    lies inside the block, an entry consumes at least one byte: the fuel
    [length raw] of [_iter_block_entries] is enough. *)
Lemma entries_loop_fuel (f1 : nat) :
  forall f2 buf pos rao key,
    rao - pos <= len buf ->
    (length buf <= f1)%nat -> (length buf <= f2)%nat ->
    entries_loop f1 buf pos rao key = entries_loop f2 buf pos rao key.
Proof.
  induction f1 as [|f1 IH]; intros [|f2] buf pos rao key Hi H1 H2;
    try reflexivity; cbn [entries_loop].
  - destruct buf; [|simpl in H1; lia].
    destruct (pos <? rao) eqn:E; [|reflexivity].
    apply Z.ltb_lt in E. unfold len in Hi. simpl in Hi. lia.
  - destruct buf; [|simpl in H2; lia].
    destruct (pos <? rao) eqn:E; [|reflexivity].
    apply Z.ltb_lt in E. unfold len in Hi. simpl in Hi. lia.
  - destruct (pos <? rao) eqn:E; [|reflexivity]. apply Z.ltb_lt in E.
    destruct buf as [|b buf0]; [unfold len in Hi; simpl in Hi; lia|].
    pose proof (varint_loop_consumes 4 0 0 b buf0) as Hc.
    change (varint_loop 5 0 0 (b :: buf0)) with (_read_le_varint true (b :: buf0)) in Hc.
    destruct (_read_le_varint true (b :: buf0)) as [shared_len buf1].
    cbn [snd] in Hc.
    destruct (_read_le_varint true buf1) as [non_shared_len buf2] eqn:E2.
    apply read_le_varint_rest in E2.
    destruct (_read_le_varint true buf2) as [value_len buf3] eqn:E3.
    apply read_le_varint_rest in E3.
    destruct (read_opt non_shared_len buf3) as [sfx buf4] eqn:E4.
    apply read_opt_rest in E4.
    destruct (read_opt value_len buf4) as [vl buf5] eqn:E5.
    apply read_opt_rest in E5.
    f_equal. simpl in H1, H2. apply IH; try lia.
Qed.

Lemma entries_fuel_enough (raw : bytes) (first_entry_offset rao : Z) (fuel : nat) :
  0 <= first_entry_offset -> rao <= len raw -> (length raw <= fuel)%nat ->
  entries_loop fuel (skipn (Z.to_nat first_entry_offset) raw) first_entry_offset rao []
  = entries_loop (length raw) (skipn (Z.to_nat first_entry_offset) raw)
      first_entry_offset rao [].
Proof.
  intros H0 Hr Hf. apply entries_loop_fuel.
  - unfold len in *. rewrite length_skipn. lia.
  - rewrite length_skipn. lia.
  - rewrite length_skipn. lia.
Qed.

Lemma decode_batch_fuel (batch buf : bytes) (base count : Z) (fuel : nat) :
  batch_header batch = Some (base, count, buf) ->
  (length buf <= fuel)%nat ->
  batch_loop fuel buf base count 0 = decode_batch batch.
Proof.
  intros H Hf. unfold decode_batch. rewrite H.
  apply batch_loop_fuel; [assumption | apply le_n].
Qed.

Lemma iter_log_batches_fuel (f : bytes) (fuel : nat) :
  (length f <= fuel)%nat -> chunk_loop fuel f false [] = _iter_log_batches f.
Proof.
  intros Hf. apply chunk_loop_fuel; [assumption | apply le_n].
Qed.

(** ** The directory scanner *)

Example scan_one_log :
  iter_leveldb_records (Some [entry_log_1]) =
  ([mkRecord [x66; x6f; x6f] [x62; x61; x72] 42 Live false], None).
Proof. vm_compute. reflexivity. Qed.

Example scan_not_a_directory :
  iter_leveldb_records None = ([], Some (ValueError "Not a directory")).
Proof. reflexivity. Qed.

(** A name that the pattern matches at its start and that has no second
    dot is collected and then dispatched to neither reader. *)
Example scan_ignores_ldbx :
  _DATA_FILE_RE_match (name entry_ldbx) = true /\
  iter_leveldb_records (Some [entry_ldbx; entry_log_1]) =
  ([mkRecord [x66; x6f; x6f] [x62; x61; x72] 42 Live false], None).
Proof. split; vm_compute; reflexivity. Qed.

(** *** Which names reach a reader *)

Lemma hex_value_dot (s1 s2 : string) :
  forall acc, hex_value acc (s1 ++ String "." s2) = None.
Proof.
  induction s1 as [|c s1 IH]; intros acc; simpl; [reflexivity|].
  destruct (hex_digit c); [apply IH | reflexivity].
Qed.

Lemma hex_value_digits (s : string) :
  all_digits s = true -> forall acc, exists v, hex_value acc s = Some v.
Proof.
  induction s as [|c s IH]; simpl; intros H acc; [eauto|].
  apply andb_prop in H. destruct H as [Hc Hs].
  unfold hex_digit. unfold is_digit in Hc. rewrite Hc. apply IH. assumption.
Qed.

Lemma rfind_dot_ge (s : string) :
  forall i j, rfind_dot s i = Some j -> (i <= j)%nat.
Proof.
  induction s as [|c s IH]; simpl; intros i j H; [discriminate|].
  destruct (rfind_dot s (S i)) as [k|] eqn:E.
  - inversion H; subst. apply IH in E. lia.
  - destruct (Ascii.eqb c "."); inversion H; subst. lia.
Qed.

Lemma substring_all (s : string) : substring 0 (String.length s) s = s.
Proof. induction s as [|c s IH]; simpl; [reflexivity | rewrite IH; reflexivity]. Qed.

Lemma lower_empty (s : string) : lower s = EmptyString -> s = EmptyString.
Proof. destruct s; simpl; [reflexivity | discriminate]. Qed.

(** A name that the pattern matches at its start has ten known leading
    characters. *)
Lemma match_shape (nm : string) :
  _DATA_FILE_RE_match nm = true ->
  exists c0 c1 c2 c3 c4 c5 e1 e2 e3 rest,
    nm = String c0 (String c1 (String c2 (String c3 (String c4 (String c5
           (String "." (String e1 (String e2 (String e3 rest))))))))) /\
    all_digits (String c0 (String c1 (String c2 (String c3 (String c4
                 (String c5 EmptyString)))))) = true /\
    dispatched (String "." (String e1 (String e2 (String e3 EmptyString)))).
Proof.
  unfold _DATA_FILE_RE_match. intros H.
  apply andb_prop in H. destruct H as [H He].
  apply andb_prop in H. destruct H as [Hl Hd].
  apply Nat.eqb_eq in Hl.
  assert (Hext : dispatched (substring 6 4 nm)).
  { unfold dispatched.
    apply orb_prop in He. destruct He as [He|He].
    - apply orb_prop in He. destruct He as [He|He]; apply String.eqb_eq in He; auto.
    - apply String.eqb_eq in He; auto. }
  clear He.
  destruct nm as [|c0 nm]; [simpl in Hl; discriminate Hl|].
  destruct nm as [|c1 nm]; [simpl in Hl; discriminate Hl|].
  destruct nm as [|c2 nm]; [simpl in Hl; discriminate Hl|].
  destruct nm as [|c3 nm]; [simpl in Hl; discriminate Hl|].
  destruct nm as [|c4 nm]; [simpl in Hl; discriminate Hl|].
  destruct nm as [|c5 nm]; [simpl in Hl; discriminate Hl|].
  destruct nm as [|c6 nm];
    [simpl in Hext; destruct Hext as [E|[E|E]]; discriminate E|].
  destruct nm as [|e1 nm];
    [simpl in Hext; destruct Hext as [E|[E|E]]; discriminate E|].
  destruct nm as [|e2 nm];
    [simpl in Hext; destruct Hext as [E|[E|E]]; discriminate E|].
  destruct nm as [|e3 nm];
    [simpl in Hext; destruct Hext as [E|[E|E]]; discriminate E|].
  simpl in Hd, Hext.
  assert (Hs0 : substring 0 0 nm = EmptyString) by (destruct nm; reflexivity).
  rewrite Hs0 in Hext.
  assert (c6 = "."%char) by (destruct Hext as [E|[E|E]]; congruence).
  subst c6. exists c0, c1, c2, c3, c4, c5, e1, e2, e3, nm.
  split; [reflexivity|]. split; assumption.
Qed.

(** A name that passes the filter, whose stem parses and whose suffix is
    dispatched to a reader, matches the pattern as a whole. *)
Lemma dispatched_name_fullmatch (nm : string) (n : Z) :
  _DATA_FILE_RE_match nm = true ->
  int_16 (stem nm) = Ok n ->
  dispatched (lower (suffix nm)) ->
  data_file_fullmatch nm = true.
Proof.
  intros Hm Hi Hs. unfold data_file_fullmatch. rewrite Hm. cbn [andb].
  destruct (match_shape nm Hm) as
    (c0 & c1 & c2 & c3 & c4 & c5 & e1 & e2 & e3 & rest & -> & Hd & He).
  clear Hm. unfold stem in Hi. unfold suffix in Hs.
  cbn [rfind_dot] in Hi, Hs.
  destruct (rfind_dot rest 10) as [j|] eqn:Er.
  - exfalso. apply rfind_dot_ge in Er.
    assert (Hstem : forall tl,
      int_16 (String c0 (String c1 (String c2 (String c3 (String c4 (String c5
                (String "." tl))))))) <> Ok n).
    { intros tl. unfold int_16.
      change (String c0 (String c1 (String c2 (String c3 (String c4 (String c5
                (String "." tl)))))))
        with ((String c0 (String c1 (String c2 (String c3 (String c4 (String c5
                EmptyString)))))) ++ String "." tl)%string.
      rewrite hex_value_dot. discriminate. }
    destruct (Nat.ltb 0 j && Nat.ltb j _).
    + do 7 (destruct j as [|j]; [lia|]). cbn [substring] in Hi.
      apply Hstem in Hi. exact Hi.
    + apply Hstem in Hi. exact Hi.
  - assert (Hl : lower rest = EmptyString).
    { destruct He as [E|[E|E]]; injection E as -> -> ->;
        cbn in Hs; rewrite substring_all in Hs;
        destruct Hs as [E|[E|E]]; congruence. }
    apply lower_empty in Hl. subst rest. reflexivity.
Qed.

(** A regular file whose whole name matches the pattern is collected
    (its stem parses) and dispatched to a reader. *)
Lemma fullmatch_name_consumed (nm : string) :
  data_file_fullmatch nm = true ->
  (exists n, int_16 (stem nm) = Ok n) /\ dispatched (lower (suffix nm)).
Proof.
  unfold data_file_fullmatch. intros H.
  apply andb_prop in H. destruct H as [Hm Hl].
  destruct (match_shape nm Hm) as
    (c0 & c1 & c2 & c3 & c4 & c5 & e1 & e2 & e3 & rest & -> & Hd & He).
  destruct rest as [|c rest]; [|discriminate Hl].
  destruct (hex_value_digits _ Hd 0) as [v Hv].
  destruct He as [E|[E|E]]; injection E as -> -> ->;
    (split;
     [ exists v; unfold int_16, stem; cbn [rfind_dot Ascii.eqb Bool.eqb];
       cbn [String.length Nat.ltb Nat.leb Nat.sub andb substring];
       rewrite Hv; reflexivity
     | unfold dispatched; cbn; auto ]).
Qed.

(** What the first loop collects, when no stem fails to parse: regular
    files of the directory, and among them a file is dispatched to a
    reader exactly when its whole name matches the pattern. *)
Lemma collect_files_dispatch (entries : list DirEntry) :
  forall files, collect_files entries = Ok files ->
    forall no f ext, In (no, f, ext) files ->
      In f entries /\ is_file f = true /\
      (dispatched ext <-> data_file_fullmatch (name f) = true).
Proof.
  induction entries as [|e entries IH]; cbn [collect_files]; intros files H.
  { inversion H. intros no f ext []. }
  destruct (is_file e && _DATA_FILE_RE_match (name e)) eqn:Ef.
  - apply andb_prop in Ef. destruct Ef as [Hf Hm].
    destruct (int_16 (stem (name e))) as [n|] eqn:En; [|discriminate H].
    cbn [bind] in H.
    destruct (collect_files entries) as [files'|] eqn:Ec; [|discriminate H].
    cbn [bind] in H. inversion H; subst files; clear H.
    intros no f ext [E|Hin].
    + inversion E; subst no f ext. split; [left; reflexivity|]. split; [assumption|].
      split.
      * intros Hd. apply (dispatched_name_fullmatch _ n); assumption.
      * intros Hfm. apply fullmatch_name_consumed in Hfm. tauto.
    + destruct (IH files' eq_refl no f ext Hin) as (H1 & H2 & H3).
      split; [right; assumption|]. split; assumption.
  - intros no f ext Hin.
    destruct (IH files H no f ext Hin) as (H1 & H2 & H3).
    split; [right; assumption|]. split; assumption.
Qed.

(** C6 at the failing input: a directory that holds the regular file
    [123456.log.old].  The whole name does not match the pattern, but
    [re.match] accepts it by its start; its stem [123456.log] is then not
    a hexadecimal number, and the scan ends with a [ValueError] before
    any record is yielded, also the record of the well-formed
    [000001.log] next to it.  The claim has the entry ignored, without
    an error. *)
Theorem scan_trailing_name_raises :
  data_file_fullmatch (name entry_log_old) = false /\
  _DATA_FILE_RE_match (name entry_log_old) = true /\
  stem (name entry_log_old) = "123456.log"%string /\
  iter_leveldb_records (Some [entry_log_1; entry_log_old]) =
  ([], Some (ValueError "invalid literal for int() with base 16")).
Proof. repeat split. Qed.





(** * Further properties of the reader *)

(** ** Varint codec: range of the value, bytes consumed *)

Lemma land_127_range (x : Z) : 0 <= Z.land x 127 < 128.
Proof.
  change 127 with (Z.ones 7). rewrite Z.land_ones by lia.
  apply Z.mod_pos_bound. reflexivity.
Qed.

Lemma lor_below_pow2 (a b n : Z) :
  0 <= n -> 0 <= a < 2 ^ n -> 0 <= b < 2 ^ n -> 0 <= Z.lor a b < 2 ^ n.
Proof.
  intros Hn Ha Hb. split; [apply Z.lor_nonneg; lia|].
  destruct (Z.eq_dec (Z.lor a b) 0) as [E|E]; [rewrite E; lia|].
  assert (Hpos : 0 < Z.lor a b) by (pose proof (proj2 (Z.lor_nonneg a b)); lia).
  assert (Hn0 : 0 < n).
  { destruct (Z.eq_dec n 0) as [->|]; [|lia]. exfalso. apply E.
    change (2 ^ 0) with 1 in Ha, Hb.
    replace a with 0 by lia. replace b with 0 by lia. reflexivity. }
  apply Z.log2_lt_pow2; [assumption|].
  rewrite Z.log2_lor by lia.
  apply Z.max_lub_lt.
  - destruct (Z.eq_dec a 0) as [->|Na]; [exact Hn0|].
    apply Z.log2_lt_pow2; lia.
  - destruct (Z.eq_dec b 0) as [->|Nb]; [exact Hn0|].
    apply Z.log2_lt_pow2; lia.
Qed.

Lemma varint_step_bound (acc x i : Z) :
  0 <= i -> 0 <= acc < 2 ^ (7 * i) ->
  0 <= Z.lor acc (Z.shiftl (Z.land x 127) (i * 7)) < 2 ^ (7 * (i + 1)).
Proof.
  intros Hi Hacc. pose proof (land_127_range x) as Hx.
  assert (Hp : 2 ^ (7 * (i + 1)) = 128 * 2 ^ (7 * i)).
  { replace (7 * (i + 1)) with (7 + 7 * i) by lia.
    rewrite Z.pow_add_r by lia. reflexivity. }
  assert (Hpos : 0 < 2 ^ (7 * i)) by (apply Z.pow_pos_nonneg; lia).
  apply lor_below_pow2; [lia | nia |].
  rewrite Z.shiftl_mul_pow2 by lia. replace (i * 7) with (7 * i) by lia. nia.
Qed.

Lemma varint_loop_value (n : nat) :
  forall i acc s v s',
    0 <= i -> 0 <= acc < 2 ^ (7 * i) ->
    varint_loop n i acc s = (Some v, s') ->
    0 <= v < 2 ^ (7 * (i + Z.of_nat n)) /\
    exists consumed, s = consumed ++ s' /\ (length consumed <= n)%nat.
Proof.
  induction n as [|n IH]; intros i acc s v s' Hi Hacc H; cbn [varint_loop] in H.
  - inversion H; subst. rewrite Z.add_0_r. split; [assumption|].
    exists []. split; [reflexivity | simpl; lia].
  - destruct s as [|b s]; [discriminate H|].
    pose proof (varint_step_bound acc (b2z b) i Hi Hacc) as Hstep.
    destruct (Z.land (b2z b) 128 =? 0).
    + inversion H; subst. split.
      * split; [lia|]. eapply Z.lt_le_trans; [apply Hstep|].
        apply Z.pow_le_mono_r; lia.
      * exists [b]. split; [reflexivity | simpl; lia].
    + apply IH in H; [|lia|assumption].
      destruct H as [Hv (c & -> & Hc)]. split.
      * replace (i + Z.of_nat (S n)) with (i + 1 + Z.of_nat n) by lia. assumption.
      * exists (b :: c). split; [reflexivity | simpl; lia].
Qed.

(** A varint that is read is a number of at most [7 * limit] bits (35
    bits for the reads flagged as 32-bit, 70 for the others), and at most
    [limit] bytes of the stream are consumed for it: the stream is the
    bytes consumed followed by the stream that is left. *)
Theorem read_varint_value_bound (limit : nat) (s s' : bytes) (v : Z) :
  read_varint limit s = (Some v, s') ->
  0 <= v < 2 ^ (7 * Z.of_nat limit) /\
  exists consumed, s = consumed ++ s' /\ (length consumed <= limit)%nat.
Proof.
  intros H. unfold read_varint in H.
  apply varint_loop_value in H; [assumption | lia | simpl; lia].
Qed.

(** The varint [ac 02] is 300; the byte after it is left. *)
Lemma read_varint_value_bound_witness :
  0 <= 300 < 2 ^ (7 * Z.of_nat 5).
Proof.
  apply (read_varint_value_bound 5 [xac; x02; x07] [x07] 300). reflexivity.
Defined.

(** ** Snappy: the length prefix, the literal frame *)

(** The output of a frame that decompresses has the length its prefix
    declares. *)
Theorem snappy_output_length (data out : bytes) :
  _snappy_decompress data = Ok out ->
  fst (_read_le_varint false data) = Some (len out).
Proof.
  unfold _snappy_decompress.
  destruct (_read_le_varint false data) as [n body]. cbn [fst].
  destruct (snappy_loop (length body) body []) as [res|e]; cbn [bind];
    [|discriminate].
  destruct n as [n|]; [|discriminate].
  destruct (n =? len res) eqn:E; [|discriminate].
  apply Z.eqb_eq in E. intros H. inversion H; subst. reflexivity.
Qed.

(** The frame [03 08 61 62 63], a literal [abc], has length 3. *)
Lemma snappy_output_length_witness :
  fst (_read_le_varint false [x03; x08; x61; x62; x63]) = Some (len [x61; x62; x63]).
Proof.
  apply (snappy_output_length [x03; x08; x61; x62; x63] [x61; x62; x63]).
  reflexivity.
Defined.

Lemma varint_loop_none_rest (n : nat) :
  forall i acc s, fst (varint_loop n i acc s) = None -> snd (varint_loop n i acc s) = [].
Proof.
  induction n as [|n IH]; intros i acc s; cbn [varint_loop]; [discriminate|].
  destruct s as [|b s]; [reflexivity|].
  destruct (Z.land (b2z b) 128 =? 0); [discriminate | apply IH].
Qed.

(** A stream that ends before its length prefix is complete (the empty
    stream too) is refused with the length mismatch, whatever it holds. *)
Theorem snappy_missing_prefix (data : bytes) :
  fst (_read_le_varint false data) = None ->
  _snappy_decompress data =
  Raise (ValueError "Snappy decompression length mismatch").
Proof.
  intros H. unfold _snappy_decompress.
  pose proof (varint_loop_none_rest 10 0 0 data H) as Hr.
  change (varint_loop 10 0 0 data) with (_read_le_varint false data) in Hr.
  destruct (_read_le_varint false data) as [n body].
  cbn [fst snd] in H, Hr. subst n body. reflexivity.
Qed.

(** The stream [80 80] is a prefix that is cut. *)
Lemma snappy_missing_prefix_witness :
  _snappy_decompress [x80; x80] =
  Raise (ValueError "Snappy decompression length mismatch").
Proof. apply snappy_missing_prefix. reflexivity. Defined.

Lemma small_byte (b : byte) :
  b2z b < 128 -> Z.land (b2z b) 128 = 0 /\ Z.land (b2z b) 127 = b2z b.
Proof.
  intros H. pose proof (b2z_range b) as Hr. split.
  - apply Z.bits_inj'. intros n Hn. rewrite Z.land_spec, Z.bits_0.
    destruct (Z.eq_dec n 7) as [->|Hne].
    + rewrite (Z.bits_above_log2 (b2z b) 7); [reflexivity | lia |].
      destruct (Z.eq_dec (b2z b) 0) as [E|E]; [rewrite E; simpl; lia|].
      apply Z.log2_lt_pow2; lia.
    + change 128 with (2 ^ 7). rewrite Z.pow2_bits_false by lia.
      apply andb_false_r.
  - change 127 with (Z.ones 7). rewrite Z.land_ones by lia.
    apply Z.mod_small. lia.
Qed.

Lemma varint_one_byte (n : nat) (b : byte) (s : bytes) :
  b2z b < 128 -> read_varint (S n) (b :: s) = (Some (b2z b), s).
Proof.
  intros H. destruct (small_byte b H) as [H1 H2].
  unfold read_varint. cbn [varint_loop]. rewrite H1, H2.
  change (0 =? 0) with true. cbv iota.
  rewrite Z.shiftl_0_r, Z.lor_0_l. reflexivity.
Qed.

Lemma literal_tag (m : Z) :
  0 <= m < 60 ->
  header_bytes (4 * m) = 0 /\ Z.land (4 * m) 3 = 0 /\
  forall hdr, element_length (4 * m) hdr = m + 1.
Proof.
  intros Hm.
  assert (H3 : Z.land (4 * m) 3 = 0).
  { change 3 with (Z.ones 2). rewrite Z.land_ones by lia.
    change (2 ^ 2) with 4. rewrite Z.mul_comm. apply Z.mod_mul. lia. }
  assert (Hs : Z.shiftr (4 * m) 2 = m).
  { rewrite Z.shiftr_div_pow2 by lia. change (2 ^ 2) with 4.
    rewrite Z.mul_comm. apply Z.div_mul. lia. }
  unfold header_bytes, element_length. rewrite H3, Hs.
  change (0 =? 0) with true. cbv iota.
  destruct (m <? 60) eqn:E; [|apply Z.ltb_ge in E; lia].
  repeat split; reflexivity.
Qed.

(** The frame of one short literal decompresses to the literal: a length
    byte, the tag byte [4 * (n - 1)] of a literal of [n] bytes, and the
    [n] bytes, for [n] from 1 to 60. *)
Theorem snappy_literal_frame (length_byte tag_byte : byte) (data : bytes) :
  1 <= len data <= 60 ->
  b2z length_byte = len data ->
  b2z tag_byte = 4 * (len data - 1) ->
  _snappy_decompress (length_byte :: tag_byte :: data) = Ok data.
Proof.
  intros Hn Hl Ht. unfold _snappy_decompress, _read_le_varint.
  rewrite varint_one_byte by lia.
  cbn [length]. rewrite snappy_loop_step. rewrite Ht.
  destruct (literal_tag (len data - 1)) as (Hh & H3 & He); [lia|].
  rewrite Hh, H3, len_lt_0_false. cbv zeta.
  change (Z.to_nat 0) with 0%nat. cbn [skipn firstn].
  change (0 =? 0) with true. cbv iota. rewrite He.
  replace (len data - 1 + 1) with (len data) by lia.
  rewrite Z.ltb_irrefl.
  assert (E : Z.to_nat (len data) = length data) by (unfold len; lia).
  rewrite E, skipn_all, firstn_all. cbn [app].
  destruct (length data); cbn [snappy_loop bind]; rewrite Hl, Z.eqb_refl;
    reflexivity.
Qed.

(** The literal [abc]: length byte 3, tag byte 8. *)
Lemma snappy_literal_frame_witness :
  _snappy_decompress [x03; x08; x61; x62; x63] = Ok [x61; x62; x63].
Proof.
  apply (snappy_literal_frame x03 x08 [x61; x62; x63]).
  - unfold len. simpl. lia.
  - reflexivity.
  - reflexivity.
Defined.

(** ** Table files: footer, block fetch, sequence numbers *)

Lemma read_exact (n : Z) (l : bytes) : len l = n -> read n l = (l, []).
Proof. intros H. apply read_short. lia. Qed.

(** A file that is shorter than the 48-byte footer, or whose last 8
    bytes are not the magic number, yields no record: the iteration ends
    at once, with [OSError] from the seek in the first case and with the
    [ValueError] of the magic check in the second. *)
Theorem table_bad_footer (f : bytes) :
  len f < 48 \/ uint_le (skipn (length f - 8) f) <> _TABLE_MAGIC ->
  _iter_table_file f =
  ([], Some (if len f <? 48 then OSError else ValueError "Invalid magic")).
Proof.
  intros H. unfold _iter_table_file, _TABLE_FOOTER_SIZE.
  destruct (len f <? 48) eqn:E; [reflexivity|].
  apply Z.ltb_ge in E. destruct H as [H|H]; [lia|].
  destruct (_read_block_handle _) as [mh footer1].
  destruct (_read_block_handle footer1) as [[ioff ilen] rest].
  assert (Hk : Z.to_nat (len f - 8) = (length f - 8)%nat) by (unfold len; lia).
  rewrite Hk.
  assert (Hl : len (skipn (length f - 8) f) = 8).
  { unfold len in *. rewrite length_skipn. lia. }
  rewrite (read_exact 8 _ Hl). cbn [fst].
  unfold unpack_le.
  assert (Hn : length (skipn (length f - 8) f) = 8%nat) by (unfold len in Hl; lia).
  rewrite Hn. cbn [Nat.eqb].
  apply Z.eqb_neq in H. rewrite H. reflexivity.
Qed.

(** 48 zero bytes have no magic. *)
Lemma table_bad_footer_witness :
  _iter_table_file (repeat x00 48) = ([], Some (ValueError "Invalid magic")).
Proof.
  apply (table_bad_footer (repeat x00 48)). right. vm_compute. discriminate.
Defined.

Lemma uint_le_bound (bs : bytes) : 0 <= uint_le bs < 256 ^ len bs.
Proof.
  induction bs as [|b bs IH]; [simpl; lia|].
  cbn [uint_le]. pose proof (b2z_range b) as Hb.
  replace (len (b :: bs)) with (1 + len bs) by (unfold len; simpl length; lia).
  rewrite Z.pow_add_r by (try apply len_nonneg; lia).
  change (256 ^ 1) with 256. nia.
Qed.

(** The sequence number of a record from a table file is a 56-bit
    number. *)
Theorem table_seq_56_bits (f : bytes) (r : Record_) :
  In r (fst (_iter_table_file f)) -> 0 <= seq r < 2 ^ 56.
Proof.
  intros H. apply iter_table_file_in in H. destruct H as (k & v & H).
  apply table_record_ok in H. destruct H as (_ & _ & _ & Hlen & Hseq & _).
  rewrite Hseq. pose proof (uint_le_bound (skipn (length k - 8) k)) as Hb.
  assert (Hl : len (skipn (length k - 8) k) = 8).
  { unfold len in *. rewrite length_skipn. lia. }
  rewrite Hl in Hb. rewrite Z.shiftr_div_pow2 by lia.
  change (256 ^ 8) with (2 ^ 8 * 2 ^ 56) in Hb.
  split; [apply Z.div_pos; lia|].
  apply Z.div_lt_upper_bound; lia.
Qed.

(** The record of [table_compressed] has the sequence 9. *)
Lemma table_seq_56_bits_witness :
  0 <= seq (mkRecord [x6b; x01; x09; x00; x00; x00; x00; x00; x00] [x76] 9 Live true)
    < 2 ^ 56.
Proof.
  apply (table_seq_56_bits table_compressed). vm_compute. left. reflexivity.
Defined.

(** ** The user key of a record *)

(** For a record from a table file, [user_key] is the key without its
    last 8 bytes: the key is the user key followed by the 8-byte
    trailer. *)
Theorem table_user_key (f : bytes) (r : Record_) :
  In r (fst (_iter_table_file f)) ->
  key r = user_key r ++ skipn (length (key r) - 8) (key r) /\
  len (user_key r) = len (key r) - 8.
Proof.
  intros H. apply iter_table_file_in in H. destruct H as (k & v & H).
  apply table_record_ok in H. destruct H as (Hk & _ & Hf & Hlen & _).
  unfold user_key. rewrite Hf, Hk. cbn [andb].
  destruct (8 <=? len k) eqn:E; [|apply Z.leb_gt in E; lia].
  unfold py_slice_to, py_bound. change (-8 <? 0) with true. cbv iota.
  assert (Hn : Z.to_nat (Z.max 0 (-8 + len k)) = (length k - 8)%nat)
    by (unfold len in *; lia).
  rewrite Hn. split.
  - symmetry. apply firstn_skipn.
  - apply len_of_length; [lia|]. rewrite length_firstn. unfold len in *. lia.
Qed.

(** The record of [table_deleted_with_value] has the user key [k]. *)
Lemma table_user_key_witness :
  len (user_key (mkRecord [x6b; x00; x07; x00; x00; x00; x00; x00; x00] [x76] 7
                   Deleted true)) = 9 - 8.
Proof.
  apply (table_user_key table_deleted_with_value). vm_compute. left. reflexivity.
Defined.

Lemma iter_log_file_origin (f : bytes) (r : Record_) :
  In r (_iter_log_file f) -> _from_ldb r = false.
Proof.
  unfold _iter_log_file. rewrite in_flat_map.
  intros (batch & _ & Hr). unfold decode_batch in Hr.
  destruct (batch_header batch) as [[[base count] buf]|]; [|destruct Hr].
  apply In_nth_error in Hr. destruct Hr as [k Hk].
  apply batch_loop_nth in Hk. tauto.
Qed.

(** For a record from a log file, [user_key] is the key as it is, also
    when the key is 8 bytes or longer. *)
Theorem log_user_key (f : bytes) (r : Record_) :
  In r (_iter_log_file f) -> user_key r = key r.
Proof.
  intros H. apply iter_log_file_origin in H. unfold user_key. rewrite H.
  reflexivity.
Qed.

(** The key [abcdefghij] of a log record is its user key. *)
Lemma log_user_key_witness :
  user_key (mkRecord [x61; x62; x63; x64; x65; x66; x67; x68; x69; x6a] [x76] 1
              Live false)
  = [x61; x62; x63; x64; x65; x66; x67; x68; x69; x6a].
Proof.
  apply (log_user_key (log_of_batch batch_long_key x1a)).
  vm_compute. left. reflexivity.
Defined.

(** ** Blocks: fetching and decoding *)

Lemma read_block_at (before data after : bytes) (t : byte) :
  read_block (before ++ data ++ t :: after) (Some (len before)) (Some (len data)) =
  if b2z t =? 0 then Ok (data, false)
  else do d <- _snappy_decompress data; Ok (d, true).
Proof.
  unfold read_block.
  assert (E : Z.to_nat (len before) = length before) by (unfold len; lia).
  rewrite E, skipn_app, skipn_all, Nat.sub_diag. cbn [app skipn read_opt].
  rewrite (read_app_exact (len data) data (t :: after) eq_refl).
  unfold read, _BLOCK_TRAILER_SIZE. change (Z.to_nat 5) with 5%nat.
  cbn [firstn]. destruct (b2z t =? 0); reflexivity.
Qed.

(** A block handle that points at [data] inside the file: the block is
    [data] as it is when the trailer byte after it is 0, and the Snappy
    decompression of [data] otherwise; the 4 CRC bytes of the trailer,
    and whether they are there at all, play no part. *)
Theorem read_block_fetch (before data after : bytes) (t : byte) :
  read_block (before ++ data ++ t :: after) (Some (len before)) (Some (len data)) =
  if b2z t =? 0 then Ok (data, false)
  else do d <- _snappy_decompress data; Ok (d, true).
Proof. exact (read_block_at before data after t). Qed.



(** A block of fewer than 4 bytes has no restart count: decoding it
    raises [struct.error] before any entry is yielded. *)
Theorem block_too_short (raw : bytes) :
  len raw < 4 -> _iter_block_entries raw = Raise StructError.
Proof.
  intros H. unfold _iter_block_entries, py_slice_from, py_bound.
  change (-4 <? 0) with true. cbv iota.
  rewrite Z.max_l by lia. cbn [Z.to_nat skipn]. unfold unpack_le.
  destruct (Nat.eqb_spec (length raw) 4) as [E|E]; [unfold len in H; lia|].
  reflexivity.
Qed.

(** The empty block. *)
Lemma block_too_short_witness : _iter_block_entries [] = Raise StructError.
Proof. apply block_too_short. unfold len. simpl. lia. Defined.

Lemma firstn_clamped {A} (s : Z) (l : list A) :
  0 <= s -> firstn (Z.to_nat (py_bound (len l) s)) l = firstn (Z.to_nat s) l.
Proof.
  intros Hs. unfold py_bound.
  destruct (s <? 0) eqn:E; [apply Z.ltb_lt in E; lia|].
  destruct (Z.le_gt_cases s (len l)) as [H|H].
  - rewrite Z.min_l by lia. reflexivity.
  - rewrite Z.min_r by lia.
    rewrite !firstn_all2; [reflexivity | unfold len in H; lia | unfold len; lia].
Qed.

(** *** Byte strings that read as a varint *)

Lemma varint_of_one_byte (b : byte) : b2z b < 128 -> varint_of [b] (b2z b).
Proof.
  intros H rest. unfold _read_le_varint. cbn [app].
  apply varint_one_byte. assumption.
Qed.

Lemma varint_of_range (enc : bytes) (n : Z) :
  varint_of enc n -> 0 <= n /\ (1 <= length enc)%nat.
Proof.
  intros H. specialize (H []). rewrite app_nil_r in H. split.
  - unfold _read_le_varint, read_varint in H.
    apply varint_loop_value in H; [lia | lia | simpl; lia].
  - destruct enc; [discriminate H | simpl; lia].
Qed.

(** *** A block of stored entries *)

Lemma stored_bytes_nonempty (e : StoredEntry) :
  stored_ok e -> 0 < len (stored_bytes e).
Proof.
  intros (Hs & _). apply varint_of_range in Hs. destruct Hs as [_ Hs].
  unfold stored_bytes, len. rewrite length_app. lia.
Qed.

Lemma entries_loop_stored (es : list StoredEntry) :
  forall fuel pos rao prev rest,
    Forall stored_ok es ->
    rao - pos = len (flat_map stored_bytes es) ->
    (length (flat_map stored_bytes es ++ rest) <= fuel)%nat ->
    entries_loop fuel (flat_map stored_bytes es ++ rest) pos rao prev
    = rebuild_keys prev es.
Proof.
  induction es as [|e es IH]; intros fuel pos rao prev rest Hok Hrao Hf.
  - cbn [flat_map app rebuild_keys] in *.
    destruct fuel; cbn [entries_loop]; [reflexivity|].
    replace (pos <? rao) with false; [reflexivity|].
    symmetry. apply Z.ltb_ge. unfold len in Hrao. simpl in Hrao. lia.
  - inversion Hok as [|e' es' He Hes]; subst e' es'.
    pose proof (stored_bytes_nonempty e He) as Hne.
    cbn [flat_map] in *. rewrite len_app in Hrao.
    rewrite <- app_assoc in Hf |- *.
    destruct fuel as [|fuel];
      [rewrite length_app in Hf; unfold len in Hne; lia|].
    cbn [entries_loop rebuild_keys].
    replace (pos <? rao) with true
      by (symmetry; apply Z.ltb_lt; pose proof (len_nonneg (flat_map stored_bytes es)); lia).
    destruct He as (Hs & Hk & Hv).
    pose proof (varint_of_range _ _ Hs) as [Hs0 _].
    rewrite length_app in Hf.
    set (body := flat_map stored_bytes es) in *.
    set (tail := body ++ rest) in *.
    unfold stored_bytes in Hrao |- *. rewrite <- !app_assoc.
    rewrite (Hs _), (Hk _), (Hv _). cbn [read_opt].
    rewrite (read_app_exact (len (e_suffix e)) (e_suffix e) _ eq_refl).
    rewrite (read_app_exact (len (e_value e)) (e_value e) _ eq_refl).
    unfold py_slice_to. rewrite firstn_clamped by assumption.
    f_equal. apply IH; [assumption | |].
    + rewrite !len_app. rewrite !len_app in Hrao. lia.
    + subst tail body. unfold len in Hne. lia.
Qed.

(** A block of stored entries decodes to their keys and values.  The
    block is the entries, the restart array and the restart count; the
    count tells the length of the array, and the first restart offset is
    0 (when the array is empty, the count itself is read for it). *)
Theorem block_decodes (es : list StoredEntry) (restarts count : bytes) :
  Forall stored_ok es ->
  length count = 4%nat ->
  len restarts = 4 * uint_le count ->
  uint_le (firstn 4 (restarts ++ count)) = 0 ->
  _iter_block_entries (flat_map stored_bytes es ++ restarts ++ count)
  = Ok (rebuild_keys [] es).
Proof.
  intros Hok Hc Hr H0. unfold _iter_block_entries.
  set (body := flat_map stored_bytes es).
  set (raw := body ++ restarts ++ count).
  assert (Hraw : len raw = len body + len restarts + 4).
  { unfold raw. rewrite !len_app. unfold len at 3. rewrite Hc. lia. }
  pose proof (len_nonneg body) as Hb. pose proof (len_nonneg restarts) as Hrs.
  assert (Hlast : py_slice_from raw (-4) = count).
  { unfold py_slice_from, py_bound. change (-4 <? 0) with true. cbv iota.
    rewrite Z.max_r by lia.
    replace (Z.to_nat (-4 + len raw)) with (length (body ++ restarts))
      by (rewrite length_app; unfold len in *; lia).
    unfold raw. rewrite app_assoc, skipn_app, skipn_all, Nat.sub_diag.
    reflexivity. }
  rewrite Hlast. unfold unpack_le at 1. rewrite Hc. cbn [Nat.eqb bind].
  assert (Hrao : len raw - (uint_le count + 1) * 4 = len body) by lia.
  rewrite Hrao.
  assert (Hfirst : py_slice raw (len body) (len body + 4)
                   = firstn 4 (restarts ++ count)).
  { rewrite py_slice_inside by lia. rewrite Z.min_l by lia.
    replace (Z.to_nat (len body + 4 - len body)) with 4%nat by lia.
    replace (Z.to_nat (len body)) with (length body) by (unfold len; lia).
    unfold raw. rewrite skipn_app, skipn_all, Nat.sub_diag. reflexivity. }
  rewrite Hfirst. unfold unpack_i32, unpack_le.
  assert (H4 : length (firstn 4 (restarts ++ count)) = 4%nat).
  { rewrite length_firstn, length_app, Hc. lia. }
  rewrite H4, H0. cbn [Nat.eqb bind]. change (0 <? 2147483648) with true.
  cbv iota. change (0 <? 0) with false. cbv iota.
  change (Z.to_nat 0) with 0%nat. cbn [skipn]. f_equal.
  unfold raw. apply entries_loop_stored; [assumption | fold body; lia | apply le_n].
Qed.

Lemma stored_samples_ok : Forall stored_ok [stored_apple; stored_apply].
Proof.
  repeat constructor;
    match goal with
    | |- varint_of [?b] _ => apply (varint_of_one_byte b); vm_compute; reflexivity
    end.
Qed.

(** The block of [apple -> 1] and [apply -> 2], the second key stored as
    3 shared bytes and [ly]. *)
Lemma block_decodes_witness :
  _iter_block_entries
    (flat_map stored_bytes [stored_apple; stored_apply]
     ++ [x00; x00; x00; x00] ++ [x01; x00; x00; x00])
  = Ok [([x61; x70; x70; x6c; x65], [x31]); ([x61; x70; x70; x6c; x79], [x32])].
Proof.
  apply (block_decodes [stored_apple; stored_apply] [x00; x00; x00; x00]
           [x01; x00; x00; x00]).
  - exact stored_samples_ok.
  - reflexivity.
  - reflexivity.
  - reflexivity.
Defined.

(** *** A batch of stored records *)

Lemma batch_loop_empty (fuel : nat) (base count i : Z) :
  batch_loop fuel [] base count i = [].
Proof.
  destruct fuel; cbn [batch_loop]; [reflexivity|].
  destruct (i <? count); reflexivity.
Qed.

Lemma batch_loop_ops (ops : list StoredOp) :
  forall fuel base count i,
    Forall op_ok ops ->
    (length (flat_map op_bytes ops) <= fuel)%nat ->
    batch_loop fuel (flat_map op_bytes ops) base count i
    = op_records base i (firstn (Z.to_nat (count - i)) ops).
Proof.
  induction ops as [|o ops IH]; intros fuel base count i Hok Hf.
  - cbn [flat_map]. rewrite batch_loop_empty, firstn_nil. reflexivity.
  - inversion Hok as [|o' ops' Ho Hops]; subst o' ops'.
    cbn [flat_map] in *. rewrite length_app in Hf.
    set (tail := flat_map op_bytes ops) in *.
    destruct fuel as [|fuel]; [unfold op_bytes in Hf; simpl in Hf; lia|].
    cbn [batch_loop].
    destruct (i <? count) eqn:Ei.
    + apply Z.ltb_lt in Ei.
      replace (Z.to_nat (count - i)) with (S (Z.to_nat (count - (i + 1)))) by lia.
      cbn [firstn op_records].
      destruct Ho as [Hk Hv].
      assert (Hl : (length tail <= fuel)%nat)
        by (unfold op_bytes in Hf; simpl in Hf; lia).
      unfold op_bytes, op_record. fold (op_deleted o).
      cbn [app]. rewrite <- !app_assoc. rewrite (Hk _).
      rewrite (read_app_exact (len (o_key o)) (o_key o) _ eq_refl).
      unfold op_deleted in *.
      destruct (is_deleted (key_state_of (o_state o))) eqn:Ed; cbn [negb app].
      * f_equal. apply IH; assumption.
      * rewrite <- !app_assoc. rewrite (Hv eq_refl _).
        rewrite (read_app_exact (len (o_value o)) (o_value o) _ eq_refl).
        f_equal. apply IH; assumption.
    + apply Z.ltb_ge in Ei.
      replace (Z.to_nat (count - i)) with 0%nat by lia. reflexivity.
Qed.

(** A batch of stored records decodes to those records: its 12-byte
    header gives the base sequence and the count, and the first [count]
    of the records that follow are yielded, each with its key, its value
    (none for a deleted record), its state and the next sequence. *)
Theorem log_batch_decodes (header : bytes) (ops : list StoredOp) :
  len header = 12 ->
  Forall op_ok ops ->
  decode_batch (header ++ flat_map op_bytes ops)
  = op_records (uint_le (firstn 8 header)) 0
      (firstn (Z.to_nat (uint_le (skipn 8 header))) ops).
Proof.
  intros Hh Hok. unfold decode_batch, batch_header.
  rewrite (read_app_exact 12 header _ Hh). rewrite Hh.
  change (12 <? 12) with false. cbv iota.
  rewrite (batch_loop_ops ops _ _ _ 0 Hok (le_n _)).
  rewrite Z.sub_0_r. reflexivity.
Qed.

Lemma op_samples_ok : Forall op_ok [op_put_k; op_delete_d].
Proof.
  repeat constructor; try (intros H; discriminate H);
    try (intros _);
    match goal with
    | |- varint_of [?b] _ => apply (varint_of_one_byte b); vm_compute; reflexivity
    end.
Qed.

(** The batch with base sequence 7 and count 2 that puts [k -> v] and
    deletes [d]. *)
Lemma log_batch_decodes_witness :
  decode_batch
    ([x07; x00; x00; x00; x00; x00; x00; x00; x02; x00; x00; x00]
     ++ flat_map op_bytes [op_put_k; op_delete_d])
  = [mkRecord [x6b] [x76] 7 Live false; mkRecord [x64] [] 8 Deleted false].
Proof.
  apply (log_batch_decodes
           [x07; x00; x00; x00; x00; x00; x00; x00; x02; x00; x00; x00]
           [op_put_k; op_delete_d]).
  - reflexivity.
  - exact op_samples_ok.
Defined.

Section BatchCount.

Variables (base count : Z).

Lemma batch_loop_count (fuel : nat) :
  forall buf i,
    len (batch_loop fuel buf base count i) <= Z.max 0 (count - i).
Proof.
  induction fuel as [|fuel IH]; intros buf i; cbn [batch_loop];
    [unfold len; simpl; lia|].
  destruct (i <? count) eqn:Ei; [|unfold len; simpl; lia].
  apply Z.ltb_lt in Ei.
  destruct buf as [|raw_state buf1]; [unfold len; simpl; lia|].
  destruct (_read_le_varint true buf1) as [[key_len|] buf2];
    [|unfold len; simpl; lia].
  destruct (read key_len buf2) as [ky buf3].
  destruct (negb (is_deleted (key_state_of raw_state))).
  - destruct (_read_le_varint true buf3) as [[val_len|] buf4];
      [|unfold len; simpl; lia].
    destruct (read val_len buf4) as [vl buf5].
    specialize (IH buf5 (i + 1)). unfold len in *. cbn [length]. lia.
  - specialize (IH buf3 (i + 1)). unfold len in *. cbn [length]. lia.
Qed.

End BatchCount.

(** A batch never yields more records than the count in its header
    announces, whatever follows the header; the count is a 32-bit
    number. *)
Theorem log_batch_count (batch buf : bytes) (base count : Z) :
  batch_header batch = Some (base, count, buf) ->
  len (decode_batch batch) <= count < 2 ^ 32.
Proof.
  intros H. unfold decode_batch. rewrite H.
  pose proof (batch_loop_count base count (length buf) buf 0) as Hc.
  assert (Hcnt : 0 <= count < 2 ^ 32).
  { unfold batch_header in H. destruct (read 12 batch) as [header rest] eqn:Er.
    destruct (len header <? 12) eqn:E; [discriminate H|].
    assert (Hcount : count = uint_le (skipn 8 header)) by congruence.
    apply Z.ltb_ge in E. apply read_split in Er. destruct Er as [_ Hl].
    pose proof (uint_le_bound (skipn 8 header)) as Hb.
    assert (H4 : len (skipn 8 header) = 4).
    { unfold len in *. rewrite length_skipn.
      change (Z.to_nat 12) with 12%nat in Hl. lia. }
    rewrite H4 in Hb. change (256 ^ 4) with (2 ^ 32) in Hb. lia. }
  lia.
Qed.

(** The batch [batch_cut_value] announces 2 records and yields 1. *)
Lemma log_batch_count_witness : len (decode_batch batch_cut_value) <= 2 < 2 ^ 32.
Proof.
  apply (log_batch_count batch_cut_value [x01; x01; x6b; x05; x61; x62] 7 2).
  reflexivity.
Defined.

(** *** The fragments of a log file *)

Lemma fragment_bytes_length (fr : bytes * bytes) :
  fragment_ok fr -> len (fragment_bytes fr) = 7 + len (snd fr).
Proof.
  intros [H _]. unfold fragment_bytes. rewrite len_app. lia.
Qed.

Lemma frag_loop_run (frs : list (bytes * bytes)) :
  forall fuel pad pos in_record block,
    Forall fragment_ok frs ->
    len pad < 7 ->
    pos + len (flat_map fragment_bytes frs ++ pad) <= _LOG_BLOCK_SIZE ->
    (length (flat_map fragment_bytes frs ++ pad) <= fuel)%nat ->
    frag_loop fuel (flat_map fragment_bytes frs ++ pad) pos in_record block
    = run_fragments frs (in_record, block).
Proof.
  unfold _LOG_BLOCK_SIZE.
  induction frs as [|[h p] frs IH]; intros fuel pad pos in_record block Hok Hpad Hpos Hf.
  - cbn [flat_map app run_fragments].
    destruct fuel; cbn [frag_loop]; [reflexivity|].
    destruct (pos <? _LOG_BLOCK_SIZE - 6); [|reflexivity].
    rewrite (read_short 7 pad) by lia.
    apply Z.ltb_lt in Hpad. rewrite Hpad. reflexivity.
  - inversion Hok as [|fr frs' Hfr Hfrs]; subst fr frs'.
    pose proof (fragment_bytes_length _ Hfr) as Hlen.
    destruct Hfr as [Hh Hp]. cbn [fst snd] in Hh, Hp, Hlen.
    cbn [flat_map] in *. rewrite <- app_assoc in Hpos, Hf |- *.
    set (tail := flat_map fragment_bytes frs ++ pad) in *.
    rewrite len_app in Hpos. rewrite length_app in Hf.
    pose proof (len_nonneg p) as Hp0. pose proof (len_nonneg tail) as Ht0.
    destruct fuel as [|fuel]; [unfold len in Hlen; lia|].
    unfold fragment_bytes in *. cbn [fst snd] in *.
    rewrite <- app_assoc. cbn [frag_loop run_fragments fst snd].
    replace (pos <? _LOG_BLOCK_SIZE - 6) with true
      by (symmetry; apply Z.ltb_lt; unfold _LOG_BLOCK_SIZE; lia).
    rewrite (read_app_exact 7 h (p ++ tail) Hh). rewrite Hh.
    change (7 <? 7) with false. cbv iota.
    fold (fragment_length h). fold (fragment_type h). rewrite Hp.
    rewrite (read_app_exact (len p) p tail eq_refl).
    assert (Hrec : forall ir bl,
               frag_loop fuel tail (pos + 7 + len p) ir bl
               = run_fragments frs (ir, bl)).
    { intros ir bl. subst tail.
      apply IH; try assumption; unfold len in *; lia. }
    rewrite !Hrec. unfold fragment_action, emit.
    destruct (fragment_type h =? _LOG_FULL);
      [|destruct (fragment_type h =? _LOG_FIRST);
        [|destruct (fragment_type h =? _LOG_MIDDLE);
          [|destruct (fragment_type h =? _LOG_LAST)]]];
      destruct in_record; cbv beta iota zeta; unfold log_state, bytes;
      repeat match goal with
             | |- context [run_fragments frs ?s] =>
                 destruct (run_fragments frs s)
             end;
      reflexivity.
Qed.

Lemma chunk_loop_blocks (bs : list (list (bytes * bytes) * bytes)) :
  forall fuel in_record block,
    Forall block_ok bs -> full_but_last bs ->
    (length (flat_map block_bytes bs) <= fuel)%nat ->
    chunk_loop fuel (flat_map block_bytes bs) in_record block
    = run_blocks bs (in_record, block).
Proof.
  induction bs as [|b bs IH]; intros fuel in_record block Hok Hfull Hf.
  - cbn [flat_map run_blocks]. destruct fuel; reflexivity.
  - inversion Hok as [|b0 bs0 Hb Hbs]; subst b0 bs0.
    destruct Hb as (Hfrs & Hpad & Hlen).
    cbn [flat_map run_blocks] in *. rewrite length_app in Hf.
    destruct fuel as [|fuel]; [unfold len in Hlen; lia|].
    cbn [chunk_loop].
    assert (Hread : read _LOG_BLOCK_SIZE (block_bytes b ++ flat_map block_bytes bs)
                    = (block_bytes b, flat_map block_bytes bs)).
    { inversion Hfull as [| b0 | b0 b' bs' Hb32 Hrest]; subst.
      - cbn [flat_map]. rewrite app_nil_r. apply read_short. lia.
      - apply read_app_exact. assumption. }
    rewrite Hread.
    destruct (block_bytes b) as [|c chunk] eqn:Eb;
      [unfold len in Hlen; simpl in Hlen; lia|].
    rewrite <- Eb in *. clear Eb c chunk.
    assert (Hrun : frag_loop (length (block_bytes b)) (block_bytes b) 0 in_record block
                   = run_fragments (fst b) (in_record, block)).
    { unfold block_bytes in *. apply frag_loop_run; try assumption; [lia | apply le_n]. }
    rewrite Hrun.
    destruct (run_fragments (fst b) (in_record, block)) as [out [in_record' block']].
    f_equal. apply IH; [assumption | | unfold len in Hlen; lia].
    inversion Hfull; subst; [constructor | assumption].
Qed.

(** A log file laid out in blocks of well-formed fragments, each block
    but the last filling its 32768 bytes and each with fewer than 7 bytes
    of padding after its fragments, yields the batches of the reassembly
    table run over its fragments in order, the state of the reassembly
    going from each block to the next.  The CRC bytes of the headers play
    no part. *)
Theorem log_file_decodes (bs : list (list (bytes * bytes) * bytes)) :
  Forall block_ok bs -> full_but_last bs ->
  _iter_log_batches (flat_map block_bytes bs) = run_blocks bs (false, []).
Proof.
  intros Hok Hfull. unfold _iter_log_batches.
  apply chunk_loop_blocks; [assumption | assumption | apply le_n].
Qed.

(** A block with a [FULL] fragment [abc], a stray [LAST] fragment [d]
    and two bytes of padding yields the batch [abc]. *)
Lemma log_file_decodes_witness :
  _iter_log_batches
    (flat_map block_bytes
       [([([x00; x00; x00; x00; x03; x00; x01], [x61; x62; x63]);
          ([x00; x00; x00; x00; x01; x00; x04], [x64])], [x00; x00])])
  = [[x61; x62; x63]].
Proof.
  apply (log_file_decodes
           [([([x00; x00; x00; x00; x03; x00; x01], [x61; x62; x63]);
              ([x00; x00; x00; x00; x01; x00; x04], [x64])], [x00; x00])]).
  - repeat constructor; vm_compute; congruence.
  - constructor.
Defined.

(** A batch split over two blocks, as a [FIRST] fragment that fills the
    first block and a [LAST] fragment in the second, is yielded as one
    batch, the two payloads joined. *)
Theorem log_first_last_reassembly (h1 p1 h2 p2 : bytes) :
  len h1 = 7 -> fragment_type h1 = _LOG_FIRST -> fragment_length h1 = len p1 ->
  7 + len p1 = _LOG_BLOCK_SIZE ->
  len h2 = 7 -> fragment_type h2 = _LOG_LAST -> fragment_length h2 = len p2 ->
  7 + len p2 <= _LOG_BLOCK_SIZE ->
  _iter_log_batches ((h1 ++ p1) ++ (h2 ++ p2)) = [p1 ++ p2].
Proof.
  intros H1 T1 L1 F1 H2 T2 L2 F2. unfold _LOG_BLOCK_SIZE in *.
  pose (bs := [([(h1, p1)], @nil byte); ([(h2, p2)], @nil byte)]).
  assert (E : (h1 ++ p1) ++ (h2 ++ p2) = flat_map block_bytes bs).
  { unfold bs, block_bytes, fragment_bytes. cbn [flat_map fst snd].
    rewrite !app_nil_r. reflexivity. }
  rewrite E. unfold _iter_log_batches.
  rewrite chunk_loop_blocks; [| | |apply le_n].
  - unfold bs. cbn [run_blocks run_fragments fst snd].
    rewrite T1, T2. cbn. rewrite ?app_nil_r. reflexivity.
  - pose proof (len_nonneg p2).
    unfold bs. repeat constructor; cbn [fst snd]; try assumption;
      try (unfold len; simpl; lia);
      unfold block_bytes, fragment_bytes; cbn [flat_map fst snd];
      rewrite ?app_nil_r, ?len_app; unfold _LOG_BLOCK_SIZE; lia.
  - unfold bs. apply full_more; [|constructor].
    unfold block_bytes, fragment_bytes. cbn [flat_map fst snd].
    rewrite !app_nil_r, len_app. unfold _LOG_BLOCK_SIZE. lia.
Qed.

(** 32761 bytes [a] in the first block and [bbb] in the second. *)
Lemma log_first_last_reassembly_witness :
  _iter_log_batches
    (([x00; x00; x00; x00; xf9; x7f; x02] ++ repeat x61 (Z.to_nat 32761))
     ++ ([x00; x00; x00; x00; x03; x00; x04] ++ [x62; x62; x62]))
  = [repeat x61 (Z.to_nat 32761) ++ [x62; x62; x62]].
Proof.
  apply (log_first_last_reassembly [x00; x00; x00; x00; xf9; x7f; x02]
           (repeat x61 (Z.to_nat 32761)) [x00; x00; x00; x00; x03; x00; x04]
           [x62; x62; x62]);
    try reflexivity;
    try (unfold len; rewrite repeat_length; reflexivity).
  vm_compute. discriminate.
Defined.

(** ** The directory scanner: filter, order, dispatch *)




Lemma insert_file_perm (x : Z * DirEntry * string) (l : list (Z * DirEntry * string)) :
  Permutation (x :: l) (insert_file x l).
Proof.
  induction l as [|y l IH]; cbn [insert_file]; [apply Permutation_refl|].
  destruct (fst (fst y) <=? fst (fst x)); [|apply Permutation_refl].
  eapply Permutation_trans; [apply perm_swap|]. apply perm_skip. exact IH.
Qed.

Lemma insert_file_sorted (x : Z * DirEntry * string) (l : list (Z * DirEntry * string)) :
  StronglySorted (fun a b => file_no a <= file_no b) l ->
  StronglySorted (fun a b => file_no a <= file_no b) (insert_file x l).
Proof.
  unfold file_no. induction l as [|y l IH]; intros Hs; cbn [insert_file].
  - repeat constructor.
  - inversion Hs as [|y' l' Hl Hy]; subst y' l'.
    destruct (fst (fst y) <=? fst (fst x)) eqn:E.
    + apply Z.leb_le in E. constructor; [apply IH; assumption|].
      apply Forall_forall. intros z Hz.
      apply (Permutation_in _ (Permutation_sym (insert_file_perm x l))) in Hz.
      destruct Hz as [<- | Hz]; [assumption|].
      rewrite Forall_forall in Hy. apply Hy. assumption.
    + apply Z.leb_gt in E. constructor; [assumption|].
      constructor; [lia|].
      rewrite Forall_forall in Hy |- *. intros z Hz. specialize (Hy z Hz). lia.
Qed.

Lemma fold_insert_sorted (l : list (Z * DirEntry * string)) :
  forall acc,
    StronglySorted (fun a b => file_no a <= file_no b) acc ->
    StronglySorted (fun a b => file_no a <= file_no b)
      (fold_left (fun acc x => insert_file x acc) l acc) /\
    Permutation (acc ++ l) (fold_left (fun acc x => insert_file x acc) l acc).
Proof.
  induction l as [|x l IH]; intros acc Hs; cbn [fold_left].
  - rewrite app_nil_r. split; [assumption | apply Permutation_refl].
  - destruct (IH (insert_file x acc) (insert_file_sorted x acc Hs)) as [H1 H2].
    split; [assumption|].
    eapply Permutation_trans; [|exact H2].
    eapply Permutation_trans; [apply Permutation_sym, Permutation_middle|].
    exact (Permutation_app_tail l (insert_file_perm x acc)).
Qed.

(** The files are read in ascending order of their file numbers: the
    sorted list holds the collected files, each as often as before, and
    no file comes before one with a smaller number. *)
Theorem sort_files_sorted (files : list (Z * DirEntry * string)) :
  StronglySorted (fun a b => file_no a <= file_no b) (sort_files files) /\
  Permutation files (sort_files files).
Proof.
  unfold sort_files. apply (fold_insert_sorted files []). constructor.
Qed.

Lemma filter_none {A} (f : A -> bool) (l : list A) :
  (forall z, In z l -> f z = false) -> filter f l = [].
Proof.
  induction l as [|a l IH]; intros H; cbn [filter]; [reflexivity|].
  rewrite (H a (or_introl eq_refl)). apply IH. intros z Hz. apply H. right. exact Hz.
Qed.

Lemma insert_file_filter (k : Z) (x : Z * DirEntry * string)
    (acc : list (Z * DirEntry * string)) :
  StronglySorted (fun a b => file_no a <= file_no b) acc ->
  filter (fun y => file_no y =? k) (insert_file x acc)
  = filter (fun y => file_no y =? k) acc
    ++ (if file_no x =? k then [x] else []).
Proof.
  induction acc as [|y acc IH]; intros Hs; cbn [insert_file filter app].
  - reflexivity.
  - inversion Hs as [|y' l' Hl Hy]; subst y' l'.
    fold (file_no y). fold (file_no x).
    destruct (file_no y <=? file_no x) eqn:E; cbn [filter].
    + rewrite (IH Hl). destruct (file_no y =? k); reflexivity.
    + apply Z.leb_gt in E.
      destruct (file_no x =? k) eqn:Ex; [|rewrite app_nil_r; reflexivity].
      apply Z.eqb_eq in Ex.
      assert (Hn : filter (fun z => file_no z =? k) (y :: acc) = []).
      { apply filter_none. intros z Hz. apply Z.eqb_neq.
        destruct Hz as [<- | Hz]; [lia|].
        rewrite Forall_forall in Hy. specialize (Hy z Hz). lia. }
      cbn [filter] in Hn. rewrite Hn. reflexivity.
Qed.

Lemma fold_insert_filter (k : Z) (l : list (Z * DirEntry * string)) :
  forall acc,
    StronglySorted (fun a b => file_no a <= file_no b) acc ->
    filter (fun y => file_no y =? k) (fold_left (fun acc x => insert_file x acc) l acc)
    = filter (fun y => file_no y =? k) acc ++ filter (fun y => file_no y =? k) l.
Proof.
  induction l as [|x l IH]; intros acc Hs; cbn [fold_left filter].
  - rewrite app_nil_r. reflexivity.
  - rewrite (IH _ (insert_file_sorted x acc Hs)), (insert_file_filter k x acc Hs).
    rewrite <- app_assoc. f_equal. destruct (file_no x =? k); reflexivity.
Qed.

(** The sort is stable: files with the same file number (a table and a
    log with the same six digits) are read in the order in which the
    directory listed them. *)
Theorem sort_files_stable (k : Z) (files : list (Z * DirEntry * string)) :
  filter (fun x => file_no x =? k) (sort_files files)
  = filter (fun x => file_no x =? k) files.
Proof.
  unfold sort_files. rewrite fold_insert_filter by constructor. reflexivity.
Qed.

(** A directory with one regular file whose whole name matches the
    pattern is scanned as that file: by the log reader when the
    extension is [log], by the table reader otherwise. *)
Theorem scan_single_file (e : DirEntry) :
  is_file e = true -> data_file_fullmatch (name e) = true ->
  iter_leveldb_records (Some [e])
  = if String.eqb (lower (suffix (name e))) ".log"
    then (_iter_log_file (content e), None)
    else _iter_table_file (content e).
Proof.
  intros Hf Hm.
  destruct (fullmatch_name_consumed (name e) Hm) as [[n Hn] Hd].
  unfold data_file_fullmatch in Hm. apply andb_prop in Hm. destruct Hm as [Hm _].
  unfold iter_leveldb_records. cbn [collect_files]. rewrite Hf, Hm, Hn.
  cbn [andb bind sort_files fold_left insert_file scan_files].
  destruct (String.eqb (lower (suffix (name e))) ".log") eqn:El.
  { unfold yields. cbn [fst snd]. rewrite app_nil_r. reflexivity. }
  replace (String.eqb (lower (suffix (name e))) ".ldb"
           || String.eqb (lower (suffix (name e))) ".sst") with true.
  - destruct (_iter_table_file (content e)) as [rs [err|]]; [reflexivity|].
    unfold yields. cbn [fst snd]. rewrite app_nil_r. reflexivity.
  - symmetry. destruct Hd as [E|[E|E]]; rewrite E in El |- *;
      [discriminate El | reflexivity | reflexivity].
Qed.

(** The directory with the log file [000001.log] alone. *)
Lemma scan_single_file_witness :
  iter_leveldb_records (Some [entry_log_1])
  = (_iter_log_file (content entry_log_1), None).
Proof.
  apply (scan_single_file entry_log_1); reflexivity.
Defined.

(** The frame [00 f0] fails with one of these: [IndexError]. *)
Lemma snappy_failure_kinds_witness :
  snappy_error_of IndexError = Some MalformedSnappy \/
  snappy_error_of IndexError = Some LengthMismatch \/
  IndexError = IndexError \/ IndexError = StructError.
Proof. apply (snappy_failure_kinds [x00; xf0]). reflexivity. Defined.

(** In the directory of [123456.ldbx] and [000001.log], the log file is
    collected, and dispatched as its whole name matches. *)
Lemma collect_files_dispatch_witness :
  In entry_log_1 [entry_ldbx; entry_log_1] /\ is_file entry_log_1 = true /\
  (dispatched ".log" <-> data_file_fullmatch (name entry_log_1) = true).
Proof.
  apply (collect_files_dispatch [entry_ldbx; entry_log_1]
           [(1193046, entry_ldbx, ".ldbx"%string); (1, entry_log_1, ".log"%string)]
           eq_refl 1 entry_log_1 ".log"%string).
  right. left. reflexivity.
Defined.

(** ** A table file, from the footer to the records *)

Lemma read_block_content (before after : bytes) (b : StoredBlock) :
  read_block (before ++ stored_block_bytes b ++ after)
    (Some (len before)) (Some (len (b_stored b)))
  = do d <- block_content b; Ok (d, negb (b2z (b_type b) =? 0)).
Proof.
  unfold stored_block_bytes, block_content. rewrite <- app_assoc. cbn [app].
  rewrite read_block_at. destruct (b2z (b_type b) =? 0); [reflexivity|].
  destruct (_snappy_decompress (b_stored b)); reflexivity.
Qed.

Lemma block_records_all (entries : list (bytes * bytes)) (rs : list Record_) :
  Forall2 (fun kv r => table_record (fst kv) (snd kv) = Ok r) entries rs ->
  block_records entries = (rs, None).
Proof.
  induction 1 as [|[k v] r entries rs Hr _ IH]; cbn [block_records]; [reflexivity|].
  cbn [fst snd] in Hr. rewrite Hr, IH. reflexivity.
Qed.

Lemma table_blocks_layout (ds : list TableBlock) :
  forall before after idx rs,
    map snd idx = map t_handle ds ->
    handles_at (len before) ds ->
    Forall (fun d => decodes_to (t_block d) (t_entries d)) ds ->
    Forall2 (fun kv r => table_record (fst kv) (snd kv) = Ok r)
      (flat_map t_entries ds) rs ->
    table_blocks (before ++ data_region ds ++ after) idx = (rs, None).
Proof.
  induction ds as [|d ds IH]; intros before after idx rs Hidx Hh Hd Hr.
  - destruct idx; [|discriminate Hidx]. inversion Hr. reflexivity.
  - destruct idx as [|[ik hb] idx]; [discriminate Hidx|].
    cbn [map snd] in Hidx. injection Hidx as Hhb Hidx. subst hb.
    cbn [handles_at] in Hh. destruct Hh as [Hh Hh'].
    inversion Hd as [|d0 ds0 Hd1 Hd2]; subst d0 ds0.
    cbn [flat_map] in Hr. apply Forall2_app_inv_l in Hr.
    destruct Hr as (rs1 & rs2 & Hr1 & Hr2 & ->).
    cbn [table_blocks].
    destruct (_read_block_handle (t_handle d)) as [[off n] rest].
    cbn [fst] in Hh. injection Hh as -> ->.
    unfold data_region. cbn [flat_map]. fold (data_region ds).
    rewrite <- app_assoc, read_block_content.
    unfold decodes_to in Hd1.
    destruct (block_content (t_block d)) as [raw|e]; [|discriminate Hd1].
    cbn [bind] in Hd1 |- *. rewrite Hd1, (block_records_all _ _ Hr1).
    rewrite app_assoc.
    rewrite (IH (before ++ stored_block_bytes (t_block d)) after idx rs2);
      [reflexivity | assumption | rewrite len_app; assumption | assumption
      | assumption].
Qed.

(** A table file laid out as its data blocks, its index block and its
    footer yields the records of the entries of its data blocks, in the
    order of the index and then of each block, and ends without an
    error.  The footer names the index block and ends with the magic;
    the values of the index entries read as the handles of the data
    blocks, one after the other from offset 0; every block is taken as it
    is or decompressed, by the type byte of its trailer; the CRC bytes
    and the keys of the index play no part. *)
Theorem table_file_decodes (ds : list TableBlock) (index : StoredBlock)
    (idx : list (bytes * bytes)) (footer : bytes) (rs : list Record_) :
  len footer = 48 ->
  fst (_read_block_handle (snd (_read_block_handle footer)))
    = (Some (len (data_region ds)), Some (len (b_stored index))) ->
  uint_le (skipn 40 footer) = _TABLE_MAGIC ->
  decodes_to index idx ->
  map snd idx = map t_handle ds ->
  handles_at 0 ds ->
  Forall (fun d => decodes_to (t_block d) (t_entries d)) ds ->
  Forall2 (fun kv r => table_record (fst kv) (snd kv) = Ok r)
    (flat_map t_entries ds) rs ->
  _iter_table_file (data_region ds ++ stored_block_bytes index ++ footer)
  = (rs, None).
Proof.
  intros Hf Hih Hmagic Hindex Hidx Hh Hd Hr.
  unfold _iter_table_file, _TABLE_FOOTER_SIZE.
  set (region := data_region ds) in *.
  set (ib := stored_block_bytes index).
  assert (Hlen : len (region ++ ib ++ footer) = len (region ++ ib) + 48)
    by (rewrite app_assoc, len_app; lia).
  pose proof (len_nonneg (region ++ ib)) as H0.
  replace (len (region ++ ib ++ footer) <? 48) with false
    by (symmetry; apply Z.ltb_ge; lia).
  rewrite Hlen.
  assert (Hfooter : skipn (Z.to_nat (len (region ++ ib) + 48 - 48))
                      (region ++ ib ++ footer) = footer).
  { replace (Z.to_nat (len (region ++ ib) + 48 - 48)) with (length (region ++ ib))
      by (unfold len; lia).
    rewrite app_assoc, skipn_app, skipn_all, Nat.sub_diag. reflexivity. }
  rewrite Hfooter.
  destruct (_read_block_handle footer) as [mh footer1]. cbn [snd] in Hih.
  destruct (_read_block_handle footer1) as [[io il] footer2]. cbn [fst] in Hih.
  injection Hih as -> ->.
  assert (Hlast : skipn (Z.to_nat (len (region ++ ib) + 48 - 8))
                    (region ++ ib ++ footer) = skipn 40 footer).
  { replace (Z.to_nat (len (region ++ ib) + 48 - 8))
      with (length (region ++ ib) + 40)%nat by (unfold len; lia).
    rewrite app_assoc, skipn_app.
    rewrite skipn_all2 by lia.
    replace (length (region ++ ib) + 40 - length (region ++ ib))%nat with 40%nat
      by lia.
    reflexivity. }
  rewrite Hlast.
  assert (H8 : len (skipn 40 footer) = 8).
  { unfold len in *. rewrite length_skipn. lia. }
  rewrite (read_exact 8 _ H8). cbn [fst]. unfold unpack_le.
  replace (length (skipn 40 footer)) with 8%nat by (unfold len in H8; lia).
  cbn [Nat.eqb]. rewrite Hmagic, Z.eqb_refl. cbn [negb].
  unfold ib. rewrite read_block_content.
  unfold decodes_to in Hindex.
  destruct (block_content index) as [index_data|e]; [|discriminate Hindex].
  cbn [bind] in Hindex |- *. rewrite Hindex.
  apply (table_blocks_layout ds [] (stored_block_bytes index ++ footer) idx rs);
    assumption.
Qed.

(** The file [table_compressed], in its parts. *)
Lemma table_file_decodes_witness :
  _iter_table_file
    (data_region [compressed_data_block]
     ++ stored_block_bytes compressed_index_block ++ compressed_footer)
  = ([mkRecord [x6b; x01; x09; x00; x00; x00; x00; x00; x00] [x76] 9 Live true],
     None).
Proof.
  apply (table_file_decodes [compressed_data_block] compressed_index_block
           [([x6b], [x00; x17])] compressed_footer).
  - reflexivity.
  - reflexivity.
  - reflexivity.
  - reflexivity.
  - reflexivity.
  - split; [reflexivity | exact I].
  - repeat constructor.
  - repeat constructor.
Defined.

Example table_compressed_parts :
  table_compressed
  = data_region [compressed_data_block]
    ++ stored_block_bytes compressed_index_block ++ compressed_footer.
Proof. reflexivity. Qed.

(** ** Snappy: a run of one byte *)

Lemma concat_repeat_single {A} (a : A) (n : nat) :
  concat (repeat [a] n) = repeat a n.
Proof. induction n as [|n IH]; simpl; [reflexivity | rewrite IH; reflexivity]. Qed.

Lemma skipn_repeat_last {A} (a : A) (m : nat) :
  (1 <= m)%nat -> skipn (m - 1) (repeat a m) = [a].
Proof.
  intros H. replace m with ((m - 1) + 1)%nat at 2 by lia.
  rewrite repeat_app, skipn_app, repeat_length, Nat.sub_diag.
  rewrite skipn_all2 by (rewrite repeat_length; lia). reflexivity.
Qed.

Lemma copy_bytes_run (b : byte) (m : nat) :
  (1 <= m)%nat -> copy_bytes (repeat b m) 1 64 = repeat b 64.
Proof.
  intros H.
  assert (Hl : len (repeat b m) = Z.of_nat m) by (unfold len; rewrite repeat_length; reflexivity).
  rewrite copy_bytes_overlap by lia.
  rewrite Hl. replace (Z.to_nat (Z.of_nat m - 1)) with (m - 1)%nat by lia.
  rewrite skipn_repeat_last by assumption.
  rewrite concat_repeat_single. apply firstn_all2.
  rewrite repeat_length. apply le_n.
Qed.

Lemma snappy_loop_one_literal (fuel : nat) (b : byte) (rest out : bytes) :
  snappy_loop (S fuel) ([x00; b] ++ rest) out = snappy_loop fuel rest (out ++ [b]).
Proof. reflexivity. Qed.

Lemma snappy_loop_copy_64 (fuel : nat) (rest out : bytes) :
  snappy_loop (S fuel) ([xfe; x01; x00] ++ rest) out
  = snappy_loop fuel rest (out ++ copy_bytes out 1 64).
Proof. reflexivity. Qed.

Lemma snappy_loop_run (b : byte) (k : nat) :
  forall fuel m,
    (1 <= m)%nat -> (3 * k <= fuel)%nat ->
    snappy_loop fuel (concat (repeat [xfe; x01; x00] k)) (repeat b m)
    = Ok (repeat b (m + 64 * k)).
Proof.
  induction k as [|k IH]; intros fuel m Hm Hf.
  - cbn [repeat concat]. replace (m + 64 * 0)%nat with m by lia.
    destruct fuel; reflexivity.
  - destruct fuel as [|fuel]; [lia|].
    cbn [repeat concat]. rewrite snappy_loop_copy_64.
    rewrite copy_bytes_run by assumption. rewrite <- repeat_app.
    rewrite IH by lia. f_equal. f_equal. lia.
Qed.

(** Run-length decoding through the whole decompressor: a literal of one
    byte followed by [k] copies of length 64 at offset 1 decompresses to
    [1 + 64 * k] times that byte. *)
Theorem snappy_run_length (enc : bytes) (b : byte) (k : nat) :
  length_prefix_of enc (Z.of_nat (1 + 64 * k)) ->
  _snappy_decompress (enc ++ [x00; b] ++ concat (repeat [xfe; x01; x00] k))
  = Ok (repeat b (1 + 64 * k)).
Proof.
  intros Hp. unfold _snappy_decompress. rewrite (Hp _).
  set (body := concat (repeat [xfe; x01; x00] k)).
  assert (Hlen : length ([x00; b] ++ body) = S (S (3 * k))).
  { unfold body. rewrite length_app, length_concat_repeat. simpl length. lia. }
  rewrite Hlen, snappy_loop_one_literal. cbn [app].
  change [b] with (repeat b 1).
  unfold body. rewrite snappy_loop_run by lia. cbn [bind].
  unfold len. rewrite repeat_length, Z.eqb_refl. reflexivity.
Qed.

(** The frame [41 00 61 fe 01 00]: 65 times [a]. *)
Lemma snappy_run_length_witness :
  _snappy_decompress ([x41] ++ [x00; x61] ++ concat (repeat [xfe; x01; x00] 1))
  = Ok (repeat x61 (1 + 64 * 1)).
Proof.
  apply (snappy_run_length [x41] x61 1).
  intros rest. unfold _read_le_varint. cbn [app].
  apply (varint_one_byte 9 x41 rest). vm_compute. reflexivity.
Defined.

(** ** File numbers: hexadecimal reading, decimal order *)

Lemma is_digit_range (c : ascii) : is_digit c = true -> 0 <= digit_of c <= 9.
Proof.
  unfold is_digit, digit_of. intros H. apply andb_prop in H.
  destruct H as [H1 H2]. apply Z.leb_le in H1, H2. lia.
Qed.

Lemma hex_value_base (s : string) :
  all_digits s = true -> forall acc, hex_value acc s = Some (base_value 16 acc s).
Proof.
  induction s as [|c s IH]; cbn [all_digits hex_value base_value]; intros H acc;
    [reflexivity|].
  apply andb_prop in H. destruct H as [Hc Hs].
  unfold hex_digit. unfold is_digit in Hc. rewrite Hc.
  rewrite (IH Hs). reflexivity.
Qed.

Lemma base_value_split (B : Z) (s : string) :
  forall acc,
    base_value B acc s
    = acc * B ^ Z.of_nat (String.length s) + base_value B 0 s.
Proof.
  induction s as [|c s IH]; intros acc; cbn [base_value String.length].
  - change (Z.of_nat 0) with 0. rewrite Z.pow_0_r. lia.
  - rewrite (IH (B * acc + digit_of c)), (IH (B * 0 + digit_of c)).
    rewrite Nat2Z.inj_succ, Z.pow_succ_r by lia. ring.
Qed.

Lemma base_value_range (B : Z) (s : string) :
  10 <= B -> all_digits s = true ->
  0 <= base_value B 0 s < B ^ Z.of_nat (String.length s).
Proof.
  intros HB. induction s as [|c s IH]; cbn [all_digits base_value String.length];
    intros H.
  - change (Z.of_nat 0) with 0. rewrite Z.pow_0_r. lia.
  - apply andb_prop in H. destruct H as [Hc Hs].
    apply is_digit_range in Hc. specialize (IH Hs).
    rewrite base_value_split, Nat2Z.inj_succ, Z.pow_succ_r by lia.
    replace (B * 0 + digit_of c) with (digit_of c) by lia. nia.
Qed.

Lemma base_value_order (B : Z) (s : string) :
  10 <= B ->
  forall t, String.length s = String.length t ->
    all_digits s = true -> all_digits t = true ->
    (base_value B 0 s <= base_value B 0 t <-> base_value 10 0 s <= base_value 10 0 t)
    /\ (base_value B 0 s = base_value B 0 t <-> base_value 10 0 s = base_value 10 0 t).
Proof.
  intros HB. induction s as [|c s IH]; intros [|d t] Hl Hs Ht;
    try discriminate Hl; [cbn; tauto|].
  cbn [String.length] in Hl. injection Hl as Hl.
  cbn [all_digits] in Hs, Ht.
  apply andb_prop in Hs. destruct Hs as [Hc Hs].
  apply andb_prop in Ht. destruct Ht as [Hd Ht].
  apply is_digit_range in Hc, Hd.
  specialize (IH t Hl Hs Ht). destruct IH as [IHle IHeq].
  cbn [base_value].
  replace (B * 0 + digit_of c) with (digit_of c) by lia.
  replace (B * 0 + digit_of d) with (digit_of d) by lia.
  replace (10 * 0 + digit_of c) with (digit_of c) by lia.
  replace (10 * 0 + digit_of d) with (digit_of d) by lia.
  rewrite (base_value_split B s), (base_value_split B t),
    (base_value_split 10 s), (base_value_split 10 t).
  rewrite <- Hl.
  pose proof (base_value_range B s HB Hs) as RBs.
  pose proof (base_value_range B t HB Ht) as RBt.
  pose proof (base_value_range 10 s (Z.le_refl 10) Hs) as R10s.
  pose proof (base_value_range 10 t (Z.le_refl 10) Ht) as R10t.
  rewrite <- Hl in RBt, R10t.
  set (P := B ^ Z.of_nat (String.length s)) in *.
  set (Q := 10 ^ Z.of_nat (String.length s)) in *.
  destruct (Z.lt_trichotomy (digit_of c) (digit_of d)) as [Hlt | [Heq | Hgt]].
  - assert (HP : (digit_of c + 1) * P <= digit_of d * P)
      by (apply Z.mul_le_mono_nonneg_r; lia).
    assert (HQ : (digit_of c + 1) * Q <= digit_of d * Q)
      by (apply Z.mul_le_mono_nonneg_r; lia).
    split; split; intros H; lia.
  - rewrite Heq. split.
    + split; intros H; [apply Z.add_le_mono_l, IHle; lia
                       | apply Z.add_le_mono_l, IHle; lia].
    + split; intros H; [f_equal; apply IHeq; lia | f_equal; apply IHeq; lia].
  - assert (HP : (digit_of d + 1) * P <= digit_of c * P)
      by (apply Z.mul_le_mono_nonneg_r; lia).
    assert (HQ : (digit_of d + 1) * Q <= digit_of c * Q)
      by (apply Z.mul_le_mono_nonneg_r; lia).
    split; split; intros H; lia.
Qed.

(** The file numbers are read in base 16, and yet they order the files
    as the decimal numbers that their digits spell: for two stems of
    decimal digits of the same length, one file number is at most the
    other exactly when one decimal number is at most the other. *)
Theorem file_number_order (s t : string) (hs ht : Z) :
  String.length s = String.length t ->
  all_digits s = true -> all_digits t = true ->
  int_16 s = Ok hs -> int_16 t = Ok ht ->
  (hs <= ht <-> base_value 10 0 s <= base_value 10 0 t).
Proof.
  intros Hl Hs Ht His Hit.
  assert (H16 : 10 <= 16) by lia.
  destruct (base_value_order 16 s H16 t Hl Hs Ht) as [Hle _].
  unfold int_16 in His, Hit.
  rewrite (hex_value_base s Hs 0) in His. rewrite (hex_value_base t Ht 0) in Hit.
  assert (Es : hs = base_value 16 0 s)
    by (destruct s; [discriminate His | congruence]).
  assert (Et : ht = base_value 16 0 t)
    by (destruct t; [discriminate Hit | congruence]).
  rewrite Es, Et. exact Hle.
Qed.

(** The stems [000010] and [000009]: 16 and 9 in base 16, 10 and 9 in
    base 10. *)
Lemma file_number_order_witness :
  16 <= 9 <-> base_value 10 0 "000010" <= base_value 10 0 "000009".
Proof.
  apply (file_number_order "000010" "000009" 16 9); reflexivity.
Defined.
